(** * Table reconstruction of [arynsdk.partition.tables_to_pandas]

    A shallow embedding of the loop body of [tables_to_pandas]
    (lib/arynsdk/arynsdk/partition/partition.py, lines 143-187) and the
    properties the specification states about it.

    Python integers are [Z]; Python lists are [list]; a numpy object array
    of shape [(h, w)] is a record carrying its shape and a list of rows;
    a slot of such an array is an [obj], either a string or Python's [None],
    which is what [np.empty(..., dtype="object")] leaves in every slot.
    Exceptions are modelled by the [result] monad. *)

From Stdlib Require Import ZArith String List Lia.
From stdpp Require Import base tactics option numbers list strings sorting.

Local Open Scope string_scope.
Local Open Scope list_scope.
Local Open Scope Z_scope.

(** ** Exceptions *)

Inductive exn : Type :=
| IndexError   (* list index out of range, numpy index out of bounds *)
| ValueError   (* negative dimensions, shape mismatch *)
| TypeError.   (* str.join over a non-string *)

Inductive result (A : Type) : Type :=
| Ok (a : A)
| Raise (e : exn).
Arguments Ok {A} a.
Arguments Raise {A} e.

#[global] Instance exn_eq_dec : EqDecision exn.
Proof. solve_decision. Defined.

#[global] Instance result_ret : MRet result := fun A a => Ok a.
#[global] Instance result_bind : MBind result := fun A B f m =>
  match m with
  | Ok a => f a
  | Raise e => Raise e
  end.

(** [for x in xs: s = body s x], stopping at the first exception. *)
Fixpoint for_each {A S : Type} (xs : list A) (body : S -> A -> result S) (s : S)
  : result S :=
  match xs with
  | [] => Ok s
  | x :: xs' => s' ← body s x; for_each xs' body s'
  end.

(** ** Data *)

(** A slot of an object array: [Some s] is the string [s], [None] is
    Python's [None]. *)
Abbreviation obj := (option string).

(** The value every slot of [np.empty(shape, dtype="object")] holds. *)
Definition unset : obj := None.

Record Cell : Type := mkCell {
  rows : list Z;
  cols : list Z;
  content : string;
  is_header : bool
}.

Record Table : Type := mkTable {
  num_rows : Z;
  num_cols : Z;
  cells : list Cell
}.

(** An element of the partitioning response: its ["type"], its ["table"]
    ([None] for JSON null) and the remaining entries of the dict. *)
Record Element : Type := mkElement {
  elem_type : string;
  elem_table : option Table;
  elem_rest : list (string * string)
}.

Record ndarray : Type := mkArray {
  nd_rows : nat;
  nd_cols : nat;
  nd_data : list (list obj)
}.

Record DataFrame : Type := mkDataFrame {
  df_columns : option (list string);
  df_values : ndarray
}.

(** ** Python and numpy primitives *)

(** [l[0]] on a Python list. *)
Definition getitem0 {A : Type} (l : list A) : result A :=
  match l with
  | [] => Raise IndexError
  | x :: _ => Ok x
  end.

(** [l[1:]] on a Python list. *)
Definition slice1 {A : Type} (l : list A) : list A := drop 1 l.

(** numpy's handling of an integer index on an axis of length [n]:
    [0 <= i < n] is itself, [-n <= i < 0] counts from the end, anything
    else raises IndexError. *)
Definition norm_index (n : nat) (i : Z) : result nat :=
  if (0 <=? i) && (i <? Z.of_nat n) then Ok (Z.to_nat i)
  else if (- Z.of_nat n <=? i) && (i <? 0) then Ok (Z.to_nat (i + Z.of_nat n))
  else Raise IndexError.

(** [np.empty([h, w], dtype="object")]. *)
Definition np_empty (h w : Z) : result ndarray :=
  if (h <? 0) || (w <? 0) then Raise ValueError
  else Ok (mkArray (Z.to_nat h) (Z.to_nat w)
             (replicate (Z.to_nat h) (replicate (Z.to_nat w) unset))).

(** [grid[r, c] = v]. *)
Definition setitem (grid : ndarray) (r c : Z) (v : string) : result ndarray :=
  i ← norm_index (nd_rows grid) r;
  j ← norm_index (nd_cols grid) c;
  Ok (mkArray (nd_rows grid) (nd_cols grid)
        (alter (fun row => <[j := Some v]> row) i (nd_data grid))).

(** The bound of a Python slice on an axis of length [n]. *)
Definition slice_bound (n : nat) (k : Z) : nat :=
  if k <? 0 then Z.to_nat (Z.max (k + Z.of_nat n) 0)
  else Z.to_nat (Z.min k (Z.of_nat n)).

(** [a[:k, :]] *)
Definition rows_upto (a : ndarray) (k : Z) : ndarray :=
  let b := slice_bound (nd_rows a) k in
  mkArray b (nd_cols a) (take b (nd_data a)).

(** [a[k:, :]] *)
Definition rows_from (a : ndarray) (k : Z) : ndarray :=
  let b := slice_bound (nd_rows a) k in
  mkArray (nd_rows a - b) (nd_cols a) (drop b (nd_data a)).

(** The sequence [a.transpose()] iterates over: one list per column. *)
Definition transpose (a : ndarray) : list (list obj) :=
  map (fun c => map (fun row => row !!! c) (nd_data a)) (seq 0 (nd_cols a)).

(** [OrderedDict.fromkeys(it)] read back as its key sequence: a key is
    inserted at the end unless it is already present. *)
Definition fromkeys (it : list obj) : list obj :=
  foldl (fun d k => if decide (k ∈ d) then d else d ++ [k]) [] it.

(** [sep.join(it)]: TypeError on the first item that is not a string. *)
Fixpoint as_strings (it : list obj) : result (list string) :=
  match it with
  | [] => Ok []
  | Some s :: it' => ss ← as_strings it'; Ok (s :: ss)
  | None :: _ => Raise TypeError
  end.

Definition str_join (sep : string) (it : list obj) : result string :=
  ss ← as_strings it; Ok (String.concat sep ss).

(** [sorted(set(it))] on integers. *)
Definition sorted_set (it : list Z) : list Z :=
  merge_sort Z.le (remove_dups it).

(** [range(n)] *)
Definition range (n : nat) : list Z := map Z.of_nat (seq 0 n).

(** [pd.DataFrame(values, index=None, columns=columns)] on a 2-D array. *)
Definition pd_DataFrame (values : ndarray) (columns : option (list string))
  : result DataFrame :=
  match columns with
  | Some cs =>
      if decide (length cs = nd_cols values) then Ok (mkDataFrame columns values)
      else Raise ValueError
  | None => Ok (mkDataFrame None values)
  end.

(** ** The body of [tables_to_pandas] *)

(** Lines 147-149. *)
Definition header_row_nums (cs : list Cell) : list Z :=
  flat_map (fun cell => flat_map (fun row_num =>
     if is_header cell then [row_num] else []) (rows cell)) cs.

Definition header_rows (table : Table) : list Z :=
  sorted_set (header_row_nums (cells table)).

(** Lines 150-154: [i] is the loop variable, [break] leaves it as it is.
    The index [i] ranges over [range(len(header_rows))], so the list access
    is always in range. *)
Fixpoint prefix_scan (header_rows : list Z) (rng : list Z) (i : Z) : Z :=
  match rng with
  | [] => i
  | i' :: rng' =>
      if decide (header_rows !!! Z.to_nat i' ≠ i') then i'
      else prefix_scan header_rows rng' i'
  end.

Definition max_header_prefix_row (header_rows : list Z) : Z :=
  prefix_scan header_rows (range (length header_rows)) (-1).

(** Lines 160-172: one iteration of the loop over the cells. *)
Definition fill_cell (max_header_prefix_row : Z) (grid : ndarray) (cell : Cell)
  : result ndarray :=
  cond ← (if is_header cell
          then r0 ← getitem0 (rows cell); Ok (r0 <=? max_header_prefix_row)
          else Ok false);
  if (cond : bool) then
    grid ← for_each (cols cell) (fun grid col =>
              r0 ← getitem0 (rows cell); setitem grid r0 col (content cell)) grid;
    for_each (slice1 (rows cell)) (fun grid row =>
      for_each (cols cell) (fun grid col => setitem grid row col "") grid) grid
  else
    r0 ← getitem0 (rows cell);
    c0 ← getitem0 (cols cell);
    grid ← setitem grid r0 c0 (content cell);
    grid ← for_each (slice1 (cols cell)) (fun grid col =>
              r0 ← getitem0 (rows cell); setitem grid r0 col "") grid;
    for_each (slice1 (rows cell)) (fun grid row =>
      for_each (cols cell) (fun grid col => setitem grid row col "") grid) grid.

(** Lines 155-172. *)
Definition assemble_grid (table : Table) (max_header_prefix_row : Z)
  : result ndarray :=
  grid ← np_empty (num_rows table) (num_cols table);
  for_each (cells table) (fill_cell max_header_prefix_row) grid.

(** Line 177: the label of one column of the header region. *)
Definition column_label (npcol : list obj) : result string :=
  str_join " | " (fromkeys (filter (fun c => c ≠ Some "") npcol)).

(** Lines 175-177. *)
Definition flatten_header (header : ndarray) : result (list string) :=
  for_each (transpose header) (fun flattened_header npcol =>
    label ← column_label npcol;
    Ok (flattened_header ++ [label])) [].

(** Lines 146-182: the DataFrame built for one table. *)
Definition table_to_dataframe (table : Table) : result DataFrame :=
  let m := max_header_prefix_row (header_rows table) in
  grid ← assemble_grid table m;
  let header := rows_upto grid (m + 1) in
  flattened_header ← flatten_header header;
  pd_DataFrame (rows_from grid (m + 1))
    (if 0 <=? m then Some flattened_header else None).

(** Lines 143-187: [data["elements"]] is the argument. *)
Definition tables_to_pandas (elements : list Element)
  : result (list (Element * option DataFrame)) :=
  for_each elements (fun results e =>
    if String.eqb (elem_type e) "table" && bool_decide (elem_table e ≠ None) then
      match elem_table e with
      | Some table =>
          df ← table_to_dataframe table;
          Ok (results ++ [(e, Some df)])
      | None => Ok (results ++ [(e, None)])
      end
    else Ok (results ++ [(e, None)])) [].

(** ** Example tables *)

Definition hdr (rs cs : list Z) (s : string) : Cell := mkCell rs cs s true.
Definition dat (rs cs : list Z) (s : string) : Cell := mkCell rs cs s false.

Definition contiguity_table : Table :=
  mkTable 3 2 [hdr [0; 1] [0; 1] "Name"; dat [2] [0] "Alice"; dat [2] [1] "30"].

(** Header rows [0, 1, 2, 4]: no header cell touches row 3. *)
Definition prefix_break_table : Table :=
  mkTable 5 1 [hdr [0; 1; 2] [0] "h"; dat [3] [0] "d"; hdr [4] [0] "f"].

(** ** The fill policy in the words of the specification *)

(** A write [(r, c, v)] stores the string [v] at grid position [(r, c)]. *)
Abbreviation write := (Z * Z * string)%type.

(** The empty string at every position of [rs x cs], row by row. *)
Definition blanks (rs cs : list Z) : list write :=
  flat_map (fun r => map (fun c => (r, c, "")) cs) rs.

(** A header cell inside the header prefix: the content in every column of
    [cols] at [rows[0]], blanks over [rows[1:] x cols]. *)
Definition header_writes (cell : Cell) : list write :=
  match rows cell with
  | r0 :: rs =>
      map (fun c => (r0, c, content cell)) (cols cell) ++ blanks rs (cols cell)
  | [] => []
  end.

(** Every other cell: the content at [(rows[0], cols[0])], blanks at
    [rows[0]] over [cols[1:]] and over [rows[1:] x cols]. *)
Definition data_writes (cell : Cell) : list write :=
  match rows cell, cols cell with
  | r0 :: rs, c0 :: cs =>
      (r0, c0, content cell) :: map (fun c => (r0, c, "")) cs
        ++ blanks rs (cols cell)
  | _, _ => []
  end.

(** The cell is header-flagged and starts inside the header prefix. *)
Definition in_header_prefix (m : Z) (cell : Cell) : bool :=
  is_header cell && match rows cell with r0 :: _ => r0 <=? m | [] => false end.

Definition cell_writes (m : Z) (cell : Cell) : list write :=
  if in_header_prefix m cell then header_writes cell else data_writes cell.

(** The writes of all cells, in the order the cells are scanned. *)
Definition table_writes (m : Z) (cs : list Cell) : list write :=
  flat_map (cell_writes m) cs.

(** Performing the writes one after the other, a later write to a position
    replacing what an earlier one stored there. *)
Definition write_at (d : list (list obj)) (w : write) : list (list obj) :=
  alter (fun row => <[Z.to_nat w.1.2 := Some w.2]> row) (Z.to_nat w.1.1) d.

Definition replay (ws : list write) (d : list (list obj)) : list (list obj) :=
  foldl write_at d ws.

(** The string the last write to position [(r, c)] stores, if there is one. *)
Definition last_write (ws : list write) (r c : Z) : option string :=
  snd <$> last (filter (fun w => w.1 = (r, c)) ws).

(** The slot at row [i], column [j]; [None] outside the array. *)
Definition slot (d : list (list obj)) (i j : nat) : option obj :=
  d !! i ≫= fun row => row !! j.

Definition cell_at (a : ndarray) (i j : nat) : option obj := slot (nd_data a) i j.

(** ** Well-formed tables *)

Definition in_range (n : Z) (l : list Z) : Prop :=
  Forall (fun i => 0 <= i < n) l.

(** Non-empty spans inside the grid. *)
Definition cell_in_bounds (h w : Z) (cell : Cell) : Prop :=
  rows cell ≠ [] ∧ cols cell ≠ [] ∧
  in_range h (rows cell) ∧ in_range w (cols cell).

Definition in_bounds (table : Table) : Prop :=
  0 <= num_rows table ∧ 0 <= num_cols table ∧
  Forall (cell_in_bounds (num_rows table) (num_cols table)) (cells table).

(** Position [(r, c)] belongs to the span of the cell. *)
Definition covers (cell : Cell) (r c : Z) : Prop :=
  r ∈ rows cell ∧ c ∈ cols cell.

(** The spans leave no position of the grid out. *)
Definition tiles (table : Table) : Prop :=
  ∀ r c, 0 <= r < num_rows table → 0 <= c < num_cols table →
    ∃ cell, cell ∈ cells table ∧ covers cell r c.

Definition well_formed (table : Table) : Prop :=
  in_bounds table ∧ tiles table.

(** The array has the data its shape announces. *)
Definition shape_ok (a : ndarray) : Prop :=
  length (nd_data a) = nd_rows a ∧
  Forall (fun row => length row = nd_cols a) (nd_data a).

(** One step of a loop over writes. *)
Definition do_write (grid : ndarray) (w : write) : result ndarray :=
  setitem grid w.1.1 w.1.2 w.2.
Arguments do_write : simpl never.

(** The indices numpy accepts on an axis of length [n]. *)
Definition index_ok (n : nat) (i : Z) : Prop := - Z.of_nat n <= i < Z.of_nat n.

(** Both indices of the write are accepted by an array of shape [(h, w)]. *)
Definition write_ok (h w : nat) (x : write) : Prop :=
  index_ok h x.1.1 ∧ index_ok w x.1.2.

(** The cell gets past the accesses [rows[0]] and [cols[0]] on its path. *)
Definition cell_defined (m : Z) (cell : Cell) : bool :=
  match rows cell, cols cell with
  | [], _ => false
  | _ :: _, [] => in_header_prefix m cell
  | _ :: _, _ :: _ => true
  end.

(** The loop body for the cell runs to its end on an array of shape
    [(h, w)]. *)
Definition cell_fills (h w : nat) (m : Z) (cell : Cell) : Prop :=
  cell_defined m cell = true ∧ Forall (write_ok h w) (cell_writes m cell).

(** The array [np.empty] returns for non-negative dimensions. *)
Definition blank (h w : Z) : ndarray :=
  mkArray (Z.to_nat h) (Z.to_nat w)
    (replicate (Z.to_nat h) (replicate (Z.to_nat w) unset)).
Arguments blank : simpl never.

(** ** Header flattening in the words of the specification *)

(** Every value equal to one already kept is dropped; the survivors stay in
    the order in which they were first seen. *)
Fixpoint keep_first {A : Type} `{EqDecision A} (l : list A) : list A :=
  match l with
  | [] => []
  | x :: l' => x :: filter (fun y => y ≠ x) (keep_first l')
  end.

(** The non-empty values, without repetitions, joined by [" | "]. *)
Definition flat_label (vals : list string) : string :=
  String.concat " | " (keep_first (filter (fun s => s ≠ "") vals)).

(** The strings in rows [0..m] of column [c], from the top. *)
Definition header_values (a : ndarray) (m : Z) (c : nat) : list string :=
  omap (fun row => mjoin (row !! c)) (take (Z.to_nat (m + 1)) (nd_data a)).

(** Every slot of rows [0..m] holds a string. *)
Definition header_set (a : ndarray) (m : Z) : Prop :=
  ∀ i j : nat, Z.of_nat i <= m → (i < nd_rows a)%nat → (j < nd_cols a)%nat →
    ∃ s, cell_at a i j = Some (Some s).

(** Every slot of the array holds a string. *)
Definition all_set (a : ndarray) : Prop :=
  ∀ i j : nat, (i < nd_rows a)%nat → (j < nd_cols a)%nat →
    ∃ s, cell_at a i j = Some (Some s).

(** [f] on every item, stopping at the first exception. *)
Fixpoint traverse {A B : Type} (f : A -> result B) (xs : list A)
  : result (list B) :=
  match xs with
  | [] => Ok []
  | x :: xs' => y ← f x; ys ← traverse f xs'; Ok (y :: ys)
  end.

(** The header prefix of a table. *)
Definition header_prefix (table : Table) : Z :=
  max_header_prefix_row (header_rows table).

Definition region_table : Table :=
  mkTable 3 2
    [hdr [0] [0] "Region"; hdr [1] [0] "Region";
     hdr [0] [1] "2023"; hdr [1] [1] "Q1";
     dat [2] [0] "North"; dat [2] [1] "7"].

Definition region_grid : ndarray :=
  mkArray 3 2
    [[Some "Region"; Some "2023"]; [Some "Region"; Some "Q1"];
     [Some "North"; Some "7"]].

(** A header cell at [(0, 0)] and nothing at [(0, 1)]. *)
Definition gap_in_header_table : Table := mkTable 1 2 [hdr [0] [0] "h"].

#[global] Instance covers_dec (cell : Cell) (r c : Z) : Decision (covers cell r c).
Proof. unfold covers. apply _. Defined.

(** No span contains position [(r, c)]. *)
Definition uncovered (table : Table) (r c : Z) : Prop :=
  ∀ cell, cell ∈ cells table → ¬ covers cell r c.

(** Every position of rows [0..max_header_prefix_row] of the grid belongs
    to some span. *)
Definition header_region_covered (table : Table) : Prop :=
  ∀ r c, 0 <= r <= header_prefix table → r < num_rows table →
    0 <= c < num_cols table → ∃ cell, cell ∈ cells table ∧ covers cell r c.

(** A checker for [tiles]. *)
Definition tilesb (table : Table) : bool :=
  forallb (fun r =>
    forallb (fun c =>
      existsb (fun cell => bool_decide (covers cell r c)) (cells table))
      (range (Z.to_nat (num_cols table))))
    (range (Z.to_nat (num_rows table))).

(** A header row over both columns, one data cell, nothing at [(1, 1)]. *)
Definition gap_in_data_table : Table :=
  mkTable 2 2 [hdr [0] [0; 1] "h"; dat [1] [0] "x"].

(** What the loop of [tables_to_pandas] appends for one element. *)
Definition pair_of (e : Element) : result (Element * option DataFrame) :=
  match elem_table e with
  | Some table =>
      if String.eqb (elem_type e) "table"
      then df ← table_to_dataframe table; Ok (e, Some df)
      else Ok (e, None)
  | None => Ok (e, None)
  end.

(** The element is of type ["table"] and its table is [table]. *)
Definition is_table_element (e : Element) (table : Table) : Prop :=
  elem_type e = "table" ∧ elem_table e = Some table.

(** A row index counted from the end. *)
Definition from_end_table : Table := mkTable 3 1 [dat [-1] [0] "x"].

(** A header cell without columns whose rows leave the grid. *)
Definition no_cols_table : Table :=
  mkTable 1 1 [hdr [0; 7] [] "h"; dat [0] [0] "x"].

(** The example of the specification: [rows = [5]] with [num_rows = 3]. *)
Definition row_five_table : Table := mkTable 3 1 [dat [5] [0] "x"].

(** A header cell with an empty [cols] inside the header prefix. *)
Definition empty_cols_table : Table :=
  mkTable 1 1 [hdr [0] [] "x"; hdr [0] [0] "y"].

Definition one_cell_table : Table := mkTable 1 1 [dat [0] [0] "x"].

Definition bad_then_good : list Element :=
  [mkElement "table" (Some row_five_table) [];
   mkElement "table" (Some one_cell_table) []].

Definition mixed_elements : list Element :=
  [mkElement "table" (Some one_cell_table) [("page", "1")];
   mkElement "Text" None [("text", "hello")];
   mkElement "table" None []].

(** ** Tables without header cells and reordered cells *)

(** The two spans have no position in common. *)
Definition disjoint_spans (a b : Cell) : Prop :=
  ∀ r c, ¬ (covers a r c ∧ covers b r c).

Fixpoint pairwise_disjoint (cs : list Cell) : Prop :=
  match cs with
  | [] => True
  | a :: cs' => Forall (disjoint_spans a) cs' ∧ pairwise_disjoint cs'
  end.

(** What a cell shows at a position of its span: its content at the
    top-left position [(rows[0], cols[0])], a blank elsewhere. *)
Definition top_left_value (cell : Cell) (r c : Z) : string :=
  if decide (head (rows cell) = Some r ∧ head (cols cell) = Some c)
  then content cell else "".

(** The slot at [(r, c)] of the grid built from top-left positions only:
    the last cell whose span contains the position decides; a position
    outside every span stays unset. *)
Definition top_left_slot (cs : list Cell) (r c : Z) : obj :=
  match last (filter (fun cell => covers cell r c) cs) with
  | Some cell => Some (top_left_value cell r c)
  | None => unset
  end.

(** No index occurs twice in [rows] or in [cols]. *)
Definition distinct_indices (cell : Cell) : Prop :=
  NoDup (rows cell) ∧ NoDup (cols cell).

Definition two_by_two_table : Table :=
  mkTable 2 2 [dat [0; 1] [0] "a"; dat [0] [1] "b"; dat [1] [1] "c"].

#[global] Instance distinct_indices_dec (cell : Cell) :
  Decision (distinct_indices cell).
Proof. unfold distinct_indices. apply _. Defined.

(** A checker for [pairwise_disjoint]. *)
Fixpoint pairwise_disjointb (cs : list Cell) : bool :=
  match cs with
  | [] => true
  | a :: cs' =>
      forallb (fun b =>
        bool_decide (Forall (fun r =>
          Forall (fun c => ¬ covers b r c) (cols a)) (rows a))) cs'
      && pairwise_disjointb cs'
  end.

(** ** Outcomes of the reconstruction of one table *)

#[global] Instance index_ok_dec (n : nat) (i : Z) : Decision (index_ok n i).
Proof. unfold index_ok. apply _. Defined.

#[global] Instance write_ok_dec (h w : nat) (x : write) : Decision (write_ok h w x).
Proof. unfold write_ok. apply _. Defined.

#[global] Instance cell_fills_dec (h w : nat) (m : Z) (cell : Cell) :
  Decision (cell_fills h w m cell).
Proof. unfold cell_fills. apply _. Defined.

(** The cell stops the loop of lines 159-172: [rows[0]] or [cols[0]] does
    not exist where the loop body reads it, or an index the body uses lies
    outside what numpy accepts. *)
Definition cell_rejected (table : Table) (cell : Cell) : Prop :=
  rows cell = [] ∨
  (cols cell = [] ∧ in_header_prefix (header_prefix table) cell = false) ∨
  (cols cell ≠ [] ∧
   ∃ r, r ∈ rows cell ∧ ¬ (- num_rows table <= r < num_rows table)) ∨
  (∃ c, c ∈ cols cell ∧ ¬ (- num_cols table <= c < num_cols table)).

(** A header cell in row 1 only, over a data cell in row 0. *)
Definition late_header_table : Table :=
  mkTable 2 1 [dat [0] [0] "d"; hdr [1] [0] "h"].

(** What a cell shows at a position of its span: on the header branch its
    content all along [rows[0]] and blanks below, otherwise its content at
    the top-left position only. *)
Definition shown_value (m : Z) (cell : Cell) (r c : Z) : string :=
  if in_header_prefix m cell
  then (if decide (head (rows cell) = Some r) then content cell else "")
  else top_left_value cell r c.

(** The slot at [(r, c)] as the last cell containing the position leaves
    it; unset outside every span. *)
Definition shown_slot (m : Z) (cs : list Cell) (r c : Z) : obj :=
  match last (filter (fun cell => covers cell r c) cs) with
  | Some cell => Some (shown_value m cell r c)
  | None => unset
  end.

(** ** The request to the partitioning service

    [partition_file] and [_json_options] (partition.py, lines 16-114) talk
    to collaborators that are not part of the file: Python's floats,
    [json.dumps], [str(int)], [ArynConfig] of [arynsdk.config], and
    [requests.post] with the response it returns. They are the fields of
    [Services]; the code is modelled over any choice of them. *)

Class Services : Type := {
  (** Python floats, with [bool(x)], which is [x != 0.0] *)
  float : Type;
  float_bool : float -> bool;
  (** the open pdf file *)
  BinaryIO : Type;
  (** the decoded body of a response, [resp.json()] *)
  json : Type;
  (** exceptions raised by the collaborators *)
  extern : Type;
  (** [ArynConfig(aryn_api_key=k)] and [config.api_key()] *)
  ArynConfig : Type;
  ArynConfig_with_key : string -> ArynConfig;
  api_key : ArynConfig -> extern + string;
  (** [str(n)] for an integer, as an f-string formats it *)
  int_str : Z -> string
}.

(** A value of the options dict. *)
Inductive option_value `{Services} : Type :=
| VFloat (x : float)
| VBool (b : bool)
| VPages (l : list Z).
Arguments VFloat {_} x.
Arguments VBool {_} b.
Arguments VPages {_} l.

(** A Python dict with string keys, in insertion order. *)
Definition pydict (V : Type) : Type := list (string * V).

(** [d[k] = v]: the value of a key that is present is replaced where it
    stands, a new key goes to the end. *)
Fixpoint dict_set {V : Type} (d : pydict V) (k : string) (v : V) : pydict V :=
  match d with
  | [] => [(k, v)]
  | (k', v') :: d' =>
      if String.eqb k k' then (k', v) :: d' else (k', v') :: dict_set d' k v
  end.

(** [d.get(k)] *)
Fixpoint dict_get {V : Type} (d : pydict V) (k : string) : option V :=
  match d with
  | [] => None
  | (k', v') :: d' => if String.eqb k k' then Some v' else dict_get d' k
  end.

(** Lines 103-113: the dict handed to [json.dumps]. An argument enters it
    when it is truthy. *)
Definition options_dict `{Services}
    (threshold : option float) (use_ocr extract_table_structure
    extract_images : bool) (selected_pages : option (list Z))
  : pydict option_value :=
  let options := [] in
  let options :=
    match threshold with
    | Some t => if float_bool t then dict_set options "threshold" (VFloat t)
                else options
    | None => options
    end in
  let options :=
    if use_ocr then dict_set options "use_ocr" (VBool use_ocr) else options in
  let options :=
    if extract_images
    then dict_set options "extract_images" (VBool extract_images)
    else options in
  let options :=
    if extract_table_structure
    then dict_set options "extract_table_structure"
           (VBool extract_table_structure)
    else options in
  let options :=
    match selected_pages with
    | Some (p :: ps) => dict_set options "selected_pages" (VPages (p :: ps))
    | Some [] | None => options
    end in
  options.

(** Lines 96-114, over [json.dumps]. *)
Definition _json_options `{Services}
    (json_dumps : pydict option_value -> string)
    (threshold : option float) (use_ocr extract_table_structure
    extract_images : bool) (selected_pages : option (list Z)) : string :=
  json_dumps (options_dict threshold use_ocr extract_table_structure
                extract_images selected_pages).

(** The keys [_json_options] can emit, in the order it inserts them. *)
Definition option_keys : list string :=
  ["threshold"; "use_ocr"; "extract_images"; "extract_table_structure";
   "selected_pages"].

(** What [requests.post] is called with. *)
Record Request `{Services} : Type := mkRequest {
  req_url : string;
  req_options : string;        (* files["options"], before encoding *)
  req_pdf : BinaryIO;          (* files["pdf"] *)
  req_authorization : string   (* headers["Authorization"] *)
}.
Arguments mkRequest {_} _ _ _ _.

Record Response `{Services} : Type := mkResponse {
  status_code : Z;
  text : string;
  resp_json : extern + json    (* resp.json() *)
}.
Arguments mkResponse {_} _ _ _.

Inductive log_level : Type := WARNING | DEBUG.

(** What the call has done so far: the log records and the requests sent,
    oldest first. *)
Record World `{Services} : Type := mkWorld {
  logged : list (log_level * string);
  sent : list Request
}.
Arguments mkWorld {_} _ _.

Inductive partition_exn `{Services} : Type :=
| HTTPError (message : string) (response : Response)
| AttributeError                (* [None.api_key()] *)
| External (e : extern).
Arguments HTTPError {_} message response.
Arguments AttributeError {_}.
Arguments External {_} e.

Definition log_record `{Services} (w : World) (l : log_level) (msg : string)
  : World :=
  mkWorld (logged w ++ [(l, msg)]) (sent w).

Definition record_request `{Services} (w : World) (r : Request) : World :=
  mkWorld (logged w) (sent w ++ [r]).

Definition APS_URL : string := "https://api.aryn.cloud/v1/document/partition".

(** Lines 67-93. [requests_post] is the service: the response, or the
    exception, a request gets. *)
Definition partition_file `{Services}
    (json_dumps : pydict option_value -> string)
    (requests_post : Request -> extern + Response)
    (w : World) (file : BinaryIO)
    (aryn_api_key : option string) (aryn_config : option ArynConfig)
    (threshold : option float) (use_ocr extract_table_structure
    extract_images : bool) (selected_pages : option (list Z))
    (aps_url : string)
  : World * (partition_exn + json) :=
  let '(w, aryn_config) :=
    match aryn_api_key with
    | Some k =>
        let w :=
          match aryn_config with
          | Some _ =>
              log_record w WARNING
                "Both aryn_api_key and aryn_config were provided. Using aryn_api_key"
          | None => w
          end in
        (w, Some (ArynConfig_with_key k))
    | None => (w, aryn_config)
    end in
  let options_str :=
    _json_options json_dumps threshold use_ocr extract_table_structure
      extract_images selected_pages in
  let w := log_record w DEBUG options_str in
  match aryn_config with
  | None => (w, inl AttributeError)
  | Some config =>
      match api_key config with
      | inl e => (w, inl (External e))
      | inr key =>
          let req := mkRequest aps_url options_str file ("Bearer " ++ key) in
          let w := record_request w req in
          match requests_post req with
          | inl e => (w, inl (External e))
          | inr resp =>
              if negb (status_code resp =? 200) then
                (w, inl (HTTPError
                           ("Error: status_code: " ++ int_str (status_code resp)
                              ++ ", reason: " ++ text resp) resp))
              else
                match resp_json resp with
                | inl e => (w, inl (External e))
                | inr body => (w, inr body)
                end
          end
      end
  end.

(** A choice of collaborators to run the code with: floats are integers,
    a configuration holds a key or nothing. *)
Definition toy_services : Services := {|
  float := Z;
  float_bool := fun x => negb (x =? 0);
  BinaryIO := string;
  json := string;
  extern := string;
  ArynConfig := option string;
  ArynConfig_with_key := fun k => Some k;
  api_key := fun c => match c with Some k => inr k | None => inl "no key" end;
  int_str := fun n => if n =? 200 then "200" else "500"
|}.

Definition toy_dumps (d : pydict (@option_value toy_services)) : string :=
  String.concat "," (map fst d).

(** A service that refuses everything but the key ["good"]. *)
Definition toy_post (r : @Request toy_services)
  : @extern toy_services + @Response toy_services :=
  if String.eqb (req_authorization r) "Bearer good"
  then inr (@mkResponse toy_services 200 "ok" (inr "elements"))
  else inr (@mkResponse toy_services 500 "denied" (inr "error")).

Definition empty_world : @World toy_services := @mkWorld toy_services [] [].

(** The key the call authenticates with, or the exception raised on the
    way to it: an explicit key wins over the configuration. *)
Definition resolved_key `{Services}
    (aryn_api_key : option string) (aryn_config : option ArynConfig)
  : partition_exn + string :=
  match aryn_api_key, aryn_config with
  | Some k, _ =>
      match api_key (ArynConfig_with_key k) with
      | inl e => inl (External e)
      | inr key => inr key
      end
  | None, Some config =>
      match api_key config with
      | inl e => inl (External e)
      | inr key => inr key
      end
  | None, None => inl AttributeError
  end.

(** ** The range in which numpy is modelled

    [norm_index] and [np_empty] describe numpy on machine-sized values: an
    index that does not fit a signed 64-bit integer, or a shape whose
    slots would not fit the address space, is refused by numpy in other
    ways than the ones modelled. The statements about which exception is
    raised are made inside this range. *)

(** The integer fits a signed 64-bit word. *)
Definition int64 (i : Z) : Prop :=
  -9223372036854775808 <= i < 9223372036854775808.

#[global] Instance int64_dec (i : Z) : Decision (int64 i).
Proof. unfold int64. apply _. Defined.

(** Every index of every cell fits a signed 64-bit word. *)
Definition indices_fit (table : Table) : Prop :=
  Forall (fun cell => Forall int64 (rows cell) ∧ Forall int64 (cols cell))
    (cells table).

(** Each dimension fits a signed 64-bit word, and each dimension and the
    number of slots lie below [2^60]: the object array, of 8 bytes a slot,
    takes less than [2^63] bytes, the size numpy refuses with a ValueError.
    An array of such a shape is taken to be allocated. *)
Definition shape_fits (table : Table) : Prop :=
  int64 (num_rows table) ∧ int64 (num_cols table) ∧
  num_rows table < 1152921504606846976 ∧
  num_cols table < 1152921504606846976 ∧
  num_rows table * num_cols table < 1152921504606846976.

(** A table with a negative number of rows. *)
Definition negative_rows_table : Table := mkTable (-1) 2 [].

(** Non-empty spans whose indices numpy accepts on an [h x w] array. *)
Definition accepted_cell (h w : Z) (cell : Cell) : Prop :=
  rows cell ≠ [] ∧ cols cell ≠ [] ∧
  Forall (fun r => - h <= r < h) (rows cell) ∧
  Forall (fun c => - w <= c < w) (cols cell).

(** The position an accepted index denotes on an axis of length [n]: a
    negative index counts from the end. *)
Definition from_end (n i : Z) : Z := if i <? 0 then i + n else i.

(** The write with both indices counted from the start. *)
Definition land_write (h w : Z) (x : write) : write :=
  (from_end h x.1.1, from_end w x.1.2, x.2).

(** The cell without its header flag. *)
Definition as_data (cell : Cell) : Cell :=
  mkCell (rows cell) (cols cell) (content cell) false.

(** [df] is what lines 174-182 build from the grid of the table: the rows
    below the header rows as values, and as labels, when there is a header
    region, one flattened label per column. *)
Definition reconstructs (table : Table) (df : DataFrame) : Prop :=
  ∃ grid,
    assemble_grid table (header_prefix table) = Ok grid ∧
    nd_rows grid = Z.to_nat (num_rows table) ∧
    nd_cols grid = Z.to_nat (num_cols table) ∧
    df_values df = rows_from grid (header_prefix table + 1) ∧
    match df_columns df with
    | Some labels =>
        0 <= header_prefix table ∧
        length labels = nd_cols grid ∧
        ∀ c, (c < nd_cols grid)%nat →
          labels !! c
          = Some (flat_label (header_values grid (header_prefix table) c))
    | None => header_prefix table < 0
    end.

(** A header cell below row 0, without columns. *)
Definition late_header_no_cols : Cell := hdr [1] [] "h".
(** ** The result monad and the loops *)

Lemma bind_Ok {A B : Type} (m : result A) (f : A -> result B) (b : B) :
  m ≫= f = Ok b ↔ ∃ a, m = Ok a ∧ f a = Ok b.
Proof.
  destruct m as [a|e]; simpl; split.
  - intros Hf. exists a. auto.
  - intros (a' & [= <-] & Hf). exact Hf.
  - discriminate.
  - intros (a' & Ha & _). discriminate.
Qed.

Lemma bind_Ok_l {A B : Type} (a : A) (f : A -> result B) : Ok a ≫= f = f a.
Proof. reflexivity. Qed.

Lemma bind_ext {A B : Type} (m : result A) (f f' : A -> result B) :
  (∀ a, f a = f' a) → m ≫= f = m ≫= f'.
Proof. intros Hf. destruct m; simpl; [apply Hf | reflexivity]. Qed.

Lemma for_each_cons {A S : Type} (x : A) xs (body : S -> A -> result S) s :
  for_each (x :: xs) body s = body s x ≫= for_each xs body.
Proof. reflexivity. Qed.

Lemma for_each_app {A S : Type} (xs ys : list A) (body : S -> A -> result S) s :
  for_each (xs ++ ys) body s = for_each xs body s ≫= for_each ys body.
Proof.
  revert s. induction xs as [|x xs IH]; intros s; simpl; [reflexivity|].
  destruct (body s x) as [s'|e]; simpl; [apply IH | reflexivity].
Qed.

Lemma for_each_map {A B S : Type} (f : A -> B) xs (body : S -> B -> result S) s :
  for_each (map f xs) body s = for_each xs (fun s x => body s (f x)) s.
Proof.
  revert s. induction xs as [|x xs IH]; intros s; simpl; [reflexivity|].
  destruct (body s (f x)); simpl; [apply IH | reflexivity].
Qed.

Lemma for_each_ext {A S : Type} xs (body body' : S -> A -> result S) s :
  (∀ s x, x ∈ xs → body s x = body' s x) →
  for_each xs body s = for_each xs body' s.
Proof.
  revert s. induction xs as [|x xs IH]; intros s Hb; simpl; [reflexivity|].
  rewrite (Hb s x) by constructor.
  destruct (body' s x); simpl; [|reflexivity].
  apply IH. intros s' y Hy. apply Hb. by constructor.
Qed.

(** A nested loop is a loop over the flattened index sequence. *)
Lemma for_each_nested {A B C S : Type} (xs : list A) (inner : A -> list B)
    (f : A -> B -> C) (body : S -> C -> result S) s :
  for_each xs (fun s x => for_each (inner x) (fun s y => body s (f x y)) s) s
  = for_each (flat_map (fun x => map (f x) (inner x)) xs) body s.
Proof.
  revert s. induction xs as [|x xs IH]; intros s; simpl; [reflexivity|].
  rewrite for_each_app, for_each_map.
  destruct (for_each (inner x) _ s); simpl; [apply IH | reflexivity].
Qed.

(** ** Header rows and the header prefix *)

Example contiguity_example :
  table_to_dataframe contiguity_table
  = Ok (mkDataFrame (Some ["Name"; "Name"])
          (mkArray 1 2 [[Some "Alice"; Some "30"]])).
Proof. vm_compute. reflexivity. Qed.

(** Row 3 is folded into the header region although no header cell
    touches it. *)
Example prefix_break_example :
  table_to_dataframe prefix_break_table
  = Ok (mkDataFrame (Some ["h | d"]) (mkArray 1 1 [[Some "f"]])).
Proof. vm_compute. reflexivity. Qed.


Lemma Sorted_le_NoDup_lt (l : list Z) :
  StronglySorted Z.le l → NoDup l → StronglySorted Z.lt l.
Proof.
  induction 1 as [|x l Hs IH Hall]; intros Hnd; [constructor|].
  apply NoDup_cons in Hnd as [Hx Hnd].
  constructor; [by apply IH|].
  rewrite Forall_forall in *. intros y Hy.
  specialize (Hall y Hy).
  assert (x ≠ y) by (intros ->; by apply Hx).
  lia.
Qed.

Lemma sorted_set_sorted (it : list Z) : StronglySorted Z.lt (sorted_set it).
Proof.
  unfold sorted_set. apply Sorted_le_NoDup_lt.
  - apply StronglySorted_merge_sort; apply _.
  - rewrite merge_sort_Permutation. apply NoDup_remove_dups.
Qed.

Lemma elem_of_sorted_set (it : list Z) (x : Z) : x ∈ sorted_set it ↔ x ∈ it.
Proof.
  unfold sorted_set. rewrite merge_sort_Permutation. apply elem_of_remove_dups.
Qed.

(** The result only depends on the set of elements of the argument. *)
Lemma sorted_set_ext (it it' : list Z) :
  (∀ x, x ∈ it ↔ x ∈ it') → sorted_set it = sorted_set it'.
Proof.
  intros Hel.
  apply (Sorted_unique Z.le).
  - apply Sorted_merge_sort; apply _.
  - apply Sorted_merge_sort; apply _.
  - unfold sorted_set. rewrite !merge_sort_Permutation.
    apply NoDup_Permutation; try apply NoDup_remove_dups.
    intros x. rewrite !elem_of_remove_dups. apply Hel.
Qed.

Lemma elem_of_header_row_nums (cs : list Cell) (r : Z) :
  r ∈ header_row_nums cs ↔
  ∃ cell, cell ∈ cs ∧ is_header cell = true ∧ r ∈ rows cell.
Proof.
  unfold header_row_nums. rewrite list_elem_of_In, in_flat_map. split.
  - intros (cell & Hc & Hr). apply in_flat_map in Hr as (r' & Hr' & Hin).
    exists cell. rewrite !list_elem_of_In.
    destruct (is_header cell); simpl in Hin; [|tauto].
    destruct Hin as [<-|[]]. auto.
  - intros (cell & Hc & Hh & Hr). exists cell.
    rewrite list_elem_of_In in Hc. rewrite list_elem_of_In in Hr. split; [done|].
    apply in_flat_map. exists r. rewrite Hh. simpl. auto.
Qed.

Lemma elem_of_header_rows (table : Table) (r : Z) :
  r ∈ header_rows table ↔
  ∃ cell, cell ∈ cells table ∧ is_header cell = true ∧ r ∈ rows cell.
Proof.
  unfold header_rows. rewrite elem_of_sorted_set.
  apply elem_of_header_row_nums.
Qed.

Lemma prefix_scan_complete (H : list Z) (k n : nat) (i0 : Z) :
  (∀ j : nat, (k ≤ j < k + n)%nat → H !!! j = Z.of_nat j) →
  prefix_scan H (map Z.of_nat (seq k n)) i0
  = match n with O => i0 | S _ => Z.of_nat (k + n) - 1 end.
Proof.
  revert k i0. induction n as [|n IH]; intros k i0 Hall; simpl; [reflexivity|].
  rewrite Nat2Z.id.
  destruct (decide (H !!! k ≠ Z.of_nat k)) as [Hne|_].
  - exfalso. apply Hne, Hall. lia.
  - rewrite IH by (intros j Hj; apply Hall; lia).
    destruct n; lia.
Qed.

Lemma prefix_scan_break (H : list Z) (k n i : nat) (i0 : Z) :
  (k ≤ i < k + n)%nat →
  H !!! i ≠ Z.of_nat i →
  (∀ j : nat, (k ≤ j < i)%nat → H !!! j = Z.of_nat j) →
  prefix_scan H (map Z.of_nat (seq k n)) i0 = Z.of_nat i.
Proof.
  revert k i0. induction n as [|n IH]; intros k i0 Hi Hne Hlt; simpl; [lia|].
  rewrite Nat2Z.id.
  destruct (decide (H !!! k ≠ Z.of_nat k)) as [Hk|Hk].
  - destruct (decide (k = i)) as [->|Hki]; [reflexivity|].
    exfalso. apply Hk, Hlt. lia.
  - destruct (decide (k = i)) as [->|Hki]; [contradiction|].
    apply IH; [lia|done|]. intros j Hj. apply Hlt. lia.
Qed.

Lemma lookup_total_of_lookup (H : list Z) (j : nat) (x : Z) :
  (j < length H)%nat → (H !! j = Some x ↔ H !!! j = x).
Proof.
  intros Hj. rewrite (list_lookup_lookup_total_lt H j Hj).
  split; [by intros [= ->] | by intros ->].
Qed.

Lemma max_header_prefix_row_break (H : list Z) (i : nat) :
  (i < length H)%nat →
  H !! i ≠ Some (Z.of_nat i) →
  (∀ j : nat, (j < i)%nat → H !! j = Some (Z.of_nat j)) →
  max_header_prefix_row H = Z.of_nat i.
Proof.
  intros Hi Hne Hlt. unfold max_header_prefix_row, range.
  apply prefix_scan_break; [lia| |].
  - intros Heq. apply Hne. by apply lookup_total_of_lookup.
  - intros j Hj. apply lookup_total_of_lookup; [lia|]. apply Hlt. lia.
Qed.

Lemma max_header_prefix_row_complete (H : list Z) :
  (∀ j : nat, (j < length H)%nat → H !! j = Some (Z.of_nat j)) →
  max_header_prefix_row H = Z.of_nat (length H) - 1.
Proof.
  intros Hall. unfold max_header_prefix_row, range.
  rewrite prefix_scan_complete.
  - destruct (length H); simpl; lia.
  - intros j Hj. apply lookup_total_of_lookup; [lia|]. apply Hall. lia.
Qed.

(** The result always lies in [[-1, len(H) - 1]], whichever way the loop
    ends. *)
Lemma prefix_scan_range (H : list Z) (k n : nat) (i0 : Z) :
  prefix_scan H (map Z.of_nat (seq k n)) i0 = i0 ∧ n = O ∨
  Z.of_nat k <= prefix_scan H (map Z.of_nat (seq k n)) i0 < Z.of_nat (k + n).
Proof.
  revert k i0. induction n as [|n IH]; intros k i0; simpl; [by left|].
  right. destruct (decide _); [lia|].
  destruct (IH (S k) (Z.of_nat k)) as [[-> _]|Hr]; lia.
Qed.

Lemma max_header_prefix_row_range (H : list Z) :
  -1 <= max_header_prefix_row H < Z.of_nat (length H).
Proof.
  unfold max_header_prefix_row, range.
  destruct (prefix_scan_range H 0 (length H) (-1)) as [[-> _]|Hr]; lia.
Qed.


(** ** Writes on the grid *)

Lemma norm_index_nonneg (n : nat) (i : Z) :
  0 <= i < Z.of_nat n → norm_index n i = Ok (Z.to_nat i).
Proof.
  intros Hi. unfold norm_index.
  destruct (Z.leb_spec 0 i), (Z.ltb_spec i (Z.of_nat n)); simpl; (reflexivity || lia).
Qed.

Lemma norm_index_cases (n : nat) (i : Z) :
  (index_ok n i ∧ ∃ k, norm_index n i = Ok k ∧ (k < n)%nat) ∨
  (¬ index_ok n i ∧ norm_index n i = Raise IndexError).
Proof.
  unfold norm_index, index_ok.
  destruct (Z.leb_spec 0 i), (Z.ltb_spec i (Z.of_nat n)),
    (Z.leb_spec (- Z.of_nat n) i), (Z.ltb_spec i 0); simpl;
    try lia;
    first [ right; split; [lia|reflexivity]
          | left; split; [lia|]; eexists; split; [reflexivity|lia] ].
Qed.

Lemma setitem_nonneg (g : ndarray) (r c : Z) (v : string) :
  0 <= r < Z.of_nat (nd_rows g) → 0 <= c < Z.of_nat (nd_cols g) →
  setitem g r c v
  = Ok (mkArray (nd_rows g) (nd_cols g) (write_at (nd_data g) (r, c, v))).
Proof.
  intros Hr Hc. unfold setitem.
  rewrite (norm_index_nonneg _ _ Hr), (norm_index_nonneg _ _ Hc). reflexivity.
Qed.

(** An assignment either raises IndexError or keeps the shape; which of the
    two only depends on the shape and the indices. *)
Lemma setitem_cases (g : ndarray) (r c : Z) (v : string) :
  (index_ok (nd_rows g) r ∧ index_ok (nd_cols g) c ∧
   ∃ g', setitem g r c v = Ok g' ∧
         nd_rows g' = nd_rows g ∧ nd_cols g' = nd_cols g) ∨
  (¬ (index_ok (nd_rows g) r ∧ index_ok (nd_cols g) c) ∧
   setitem g r c v = Raise IndexError).
Proof.
  unfold setitem.
  destruct (norm_index_cases (nd_rows g) r) as [(Hr & i & -> & _)|[Hr ->]];
    simpl; [|right; tauto].
  destruct (norm_index_cases (nd_cols g) c) as [(Hc & j & -> & _)|[Hc ->]];
    simpl; [|right; tauto].
  left. split; [done|]. split; [done|]. eexists. split; [reflexivity|]. by split.
Qed.

(** A loop whose body either raises IndexError or keeps the shape, the
    choice depending on the shape and the item only, behaves the same way
    as a whole. *)
Lemma for_each_cases {A : Type} (body : ndarray -> A -> result ndarray)
    (ok : nat -> nat -> A -> Prop) :
  (∀ g x,
     (ok (nd_rows g) (nd_cols g) x ∧
      ∃ g', body g x = Ok g' ∧ nd_rows g' = nd_rows g ∧ nd_cols g' = nd_cols g) ∨
     (¬ ok (nd_rows g) (nd_cols g) x ∧ body g x = Raise IndexError)) →
  ∀ xs g,
     (Forall (ok (nd_rows g) (nd_cols g)) xs ∧
      ∃ g', for_each xs body g = Ok g' ∧
            nd_rows g' = nd_rows g ∧ nd_cols g' = nd_cols g) ∨
     (¬ Forall (ok (nd_rows g) (nd_cols g)) xs ∧
      for_each xs body g = Raise IndexError).
Proof.
  intros Hbody xs. induction xs as [|x xs IH]; intros g.
  - left. split; [constructor|]. by exists g.
  - rewrite for_each_cons.
    destruct (Hbody g x) as [(Hx & g' & -> & Hh & Hw)|[Hbad ->]].
    + rewrite bind_Ok_l.
      destruct (IH g') as [(Hall & g'' & -> & Hh' & Hw')|[Hbad ->]].
      * left. rewrite Hh, Hw in Hall. split; [by constructor|].
        exists g''. repeat split; congruence.
      * right. split; [|reflexivity]. intros Hall. apply Hbad.
        rewrite Hh, Hw. by apply Forall_cons in Hall as [_ ?].
    + right. split; [|reflexivity]. intros Hall.
      by apply Forall_cons in Hall as [? _].
Qed.

Lemma for_each_write_cases (ws : list write) (g : ndarray) :
  (Forall (write_ok (nd_rows g) (nd_cols g)) ws ∧
   ∃ g', for_each ws do_write g = Ok g' ∧
         nd_rows g' = nd_rows g ∧ nd_cols g' = nd_cols g) ∨
  (¬ Forall (write_ok (nd_rows g) (nd_cols g)) ws ∧
   for_each ws do_write g = Raise IndexError).
Proof.
  revert ws g. apply for_each_cases. intros g [[r c] v].
  change (do_write g (r, c, v)) with (setitem g r c v). unfold write_ok. simpl.
  destruct (setitem_cases g r c v) as [(Hr & Hc & Hg)|[Hbad ->]].
  - left. split; [done|]. exact Hg.
  - right. split; [exact Hbad|reflexivity].
Qed.

Lemma for_each_write_nonneg (ws : list write) (g : ndarray) :
  Forall (fun x : write => 0 <= x.1.1 < Z.of_nat (nd_rows g) ∧
                           0 <= x.1.2 < Z.of_nat (nd_cols g)) ws →
  for_each ws do_write g
  = Ok (mkArray (nd_rows g) (nd_cols g) (replay ws (nd_data g))).
Proof.
  revert g. induction ws as [|[[r c] v] ws IH]; intros g Hall; simpl.
  - by destruct g.
  - apply Forall_cons in Hall as [[Hr Hc] Hall]. simpl in Hr, Hc.
    change (do_write g (r, c, v)) with (setitem g r c v).
    rewrite setitem_nonneg by done. simpl.
    rewrite IH by done. reflexivity.
Qed.

Lemma blank_loop (rs cs : list Z) (g : ndarray) :
  for_each rs (fun grid row =>
    for_each cs (fun grid col => setitem grid row col "") grid) g
  = for_each (blanks rs cs) do_write g.
Proof.
  apply (for_each_nested rs (fun _ => cs) (fun r c => (r, c, "")) do_write).
Qed.

Lemma head_row_loop (r0 : Z) (rs cs : list Z) (v : string) (g : ndarray) :
  for_each cs (fun grid col =>
    r ← getitem0 (r0 :: rs); setitem grid r col v) g
  = for_each (map (fun c => (r0, c, v)) cs) do_write g.
Proof. rewrite for_each_map. reflexivity. Qed.

(** The loop body for one cell is the loop over the writes the fill policy
    lists for it, provided [rows[0]] and [cols[0]] exist where the body
    reads them. *)
Lemma fill_cell_writes (m : Z) (g : ndarray) (cell : Cell) :
  fill_cell m g cell
  = if cell_defined m cell then for_each (cell_writes m cell) do_write g
    else Raise IndexError.
Proof.
  destruct cell as [rs cs v h].
  unfold fill_cell, cell_defined, cell_writes, in_header_prefix,
    header_writes, data_writes; cbn [rows cols content is_header].
  destruct rs as [|r0 rs].
  { destruct h; reflexivity. }
  change (slice1 (r0 :: rs)) with rs.
  assert ((if h then r ← getitem0 (r0 :: rs); Ok (r <=? m) else Ok false)
          = Ok (h && (r0 <=? m))) as -> by (by destruct h).
  rewrite bind_Ok_l.
  destruct (h && (r0 <=? m)).
  - assert (match cs with [] => true | _ :: _ => true end = true) as ->
      by (by destruct cs).
    rewrite for_each_app, head_row_loop.
    apply bind_ext. intros g1. apply blank_loop.
  - destruct cs as [|c0 cs]; [reflexivity|].
    rewrite for_each_cons.
    change (do_write g (r0, c0, v)) with (setitem g r0 c0 v).
    change (setitem g r0 c0 v ≫= (fun g1 =>
              for_each cs (fun grid col =>
                r ← getitem0 (r0 :: rs); setitem grid r col "") g1 ≫= (fun g2 =>
              for_each rs (fun grid row =>
                for_each (c0 :: cs) (fun grid col =>
                  setitem grid row col "") grid) g2))
            = setitem g r0 c0 v ≫=
                for_each (map (fun c => (r0, c, "")) cs ++ blanks rs (c0 :: cs))
                  do_write).
    apply bind_ext; intros g1. rewrite for_each_app, head_row_loop.
    apply bind_ext; intros g2. apply blank_loop.
Qed.

Lemma fill_cell_cases (m : Z) (g : ndarray) (cell : Cell) :
  (cell_fills (nd_rows g) (nd_cols g) m cell ∧
   ∃ g', fill_cell m g cell = Ok g' ∧
         nd_rows g' = nd_rows g ∧ nd_cols g' = nd_cols g) ∨
  (¬ cell_fills (nd_rows g) (nd_cols g) m cell ∧
   fill_cell m g cell = Raise IndexError).
Proof.
  rewrite fill_cell_writes. unfold cell_fills.
  destruct (cell_defined m cell).
  - destruct (for_each_write_cases (cell_writes m cell) g) as [[Hall Hg]|[Hbad ->]].
    + left. by split.
    + right. split; [tauto|reflexivity].
  - right. split; [|reflexivity]. intros [? _]. discriminate.
Qed.

Lemma fill_loop_cases (m : Z) (cs : list Cell) (g : ndarray) :
  (Forall (fun cell => cell_fills (nd_rows g) (nd_cols g) m cell) cs ∧
   ∃ g', for_each cs (fill_cell m) g = Ok g' ∧
         nd_rows g' = nd_rows g ∧ nd_cols g' = nd_cols g) ∨
  (¬ Forall (fun cell => cell_fills (nd_rows g) (nd_cols g) m cell) cs ∧
   for_each cs (fill_cell m) g = Raise IndexError).
Proof.
  revert cs g.
  apply (for_each_cases (fill_cell m) (fun h w cell => cell_fills h w m cell)).
  intros g cell. apply fill_cell_cases.
Qed.

(** When every cell gets past its [rows[0]] and [cols[0]], the loop over
    the cells is the loop over all their writes. *)
Lemma fill_loop_writes (m : Z) (cs : list Cell) (g : ndarray) :
  Forall (fun cell => cell_defined m cell = true) cs →
  for_each cs (fill_cell m) g = for_each (table_writes m cs) do_write g.
Proof.
  revert g. induction cs as [|cell cs IH]; intros g Hall; [reflexivity|].
  apply Forall_cons in Hall as [Hc Hall].
  unfold table_writes. simpl. rewrite for_each_app, fill_cell_writes, Hc.
  apply bind_ext. intros g'. by apply IH.
Qed.

(** *** What the writes of a cell touch *)

Lemma elem_of_blanks (rs cs : list Z) (r c : Z) (v : string) :
  (r, c, v) ∈ blanks rs cs ↔ r ∈ rs ∧ c ∈ cs ∧ v = "".
Proof.
  unfold blanks. rewrite (list_elem_of_In (flat_map _ _)), in_flat_map. split.
  - intros (r' & Hr & Hin). apply in_map_iff in Hin as (c' & [= <- <- <-] & Hc).
    by rewrite !list_elem_of_In.
  - intros (Hr & Hc & ->). exists r. rewrite list_elem_of_In in Hr.
    split; [done|]. apply in_map_iff. exists c. by rewrite <- list_elem_of_In.
Qed.

Lemma elem_of_row_writes (r0 : Z) (cs : list Z) (s : string) (r c : Z) (v : string) :
  (r, c, v) ∈ map (fun c => (r0, c, s)) cs ↔ r = r0 ∧ c ∈ cs ∧ v = s.
Proof.
  rewrite (list_elem_of_In (map _ _)), in_map_iff. split.
  - intros (c' & [= <- <- <-] & Hc). by rewrite list_elem_of_In.
  - intros (-> & Hc & ->). exists c. by rewrite <- list_elem_of_In.
Qed.

Lemma cell_writes_in_span (m : Z) (cell : Cell) (r c : Z) (v : string) :
  (r, c, v) ∈ cell_writes m cell → covers cell r c.
Proof.
  unfold cell_writes, header_writes, data_writes, covers.
  destruct (in_header_prefix m cell), (rows cell) as [|r0 rs]; cbn beta iota;
    try (by intros ?%elem_of_nil).
  - rewrite elem_of_app, elem_of_row_writes, elem_of_blanks.
    intros [(-> & Hc & _)|(Hr & Hc & _)]; split; try done;
      [by left | by right].
  - destruct (cols cell) as [|c0 cs]; cbn beta iota; [by intros ?%elem_of_nil|].
    rewrite elem_of_cons, elem_of_app, elem_of_row_writes, elem_of_blanks.
    intros [[= -> -> ->]|[(-> & Hc & _)|(Hr & Hc & _)]]; split;
      first [by left | by right | done].
Qed.

Lemma cell_writes_cover (m : Z) (cell : Cell) (r c : Z) :
  cell_defined m cell = true → covers cell r c →
  ∃ v, (r, c, v) ∈ cell_writes m cell.
Proof.
  unfold cell_defined, cell_writes, header_writes, data_writes, covers.
  destruct (rows cell) as [|r0 rs]; [discriminate|]. cbn beta iota.
  intros Hdef [Hr Hc].
  destruct (in_header_prefix m cell).
  - apply elem_of_cons in Hr as [->|Hr].
    + exists (content cell). apply elem_of_app. left. by apply elem_of_row_writes.
    + exists "". apply elem_of_app. right. by apply elem_of_blanks.
  - destruct (cols cell) as [|c0 cs]; [discriminate|]. cbn beta iota.
    apply elem_of_cons in Hr as [->|Hr].
    + apply elem_of_cons in Hc as [->|Hc].
      * exists (content cell). by left.
      * exists "". right. apply elem_of_app. left. by apply elem_of_row_writes.
    + exists "". right. apply elem_of_app. right. by apply elem_of_blanks.
Qed.

Lemma cell_in_bounds_defined (h w m : Z) (cell : Cell) :
  cell_in_bounds h w cell → cell_defined m cell = true.
Proof.
  intros (Hr & Hc & _). unfold cell_defined.
  destruct (rows cell), (cols cell); done.
Qed.

Lemma cell_in_bounds_writes (h w m : Z) (cell : Cell) :
  cell_in_bounds h w cell →
  Forall (fun x : write => 0 <= x.1.1 < h ∧ 0 <= x.1.2 < w) (cell_writes m cell).
Proof.
  intros (_ & _ & Hr & Hc). apply Forall_forall. intros [[r c] v] Hin.
  apply cell_writes_in_span in Hin as [Hr' Hc']. simpl.
  unfold in_range in *. rewrite Forall_forall in Hr, Hc. auto.
Qed.

Lemma table_in_bounds_writes (h w m : Z) (cs : list Cell) :
  Forall (cell_in_bounds h w) cs →
  Forall (fun x : write => 0 <= x.1.1 < h ∧ 0 <= x.1.2 < w) (table_writes m cs).
Proof.
  induction 1 as [|cell cs Hc _ IH]; [constructor|].
  unfold table_writes. simpl. apply Forall_app. split; [|exact IH].
  by apply cell_in_bounds_writes.
Qed.

Lemma np_empty_nonneg (h w : Z) :
  0 <= h → 0 <= w → np_empty h w = Ok (blank h w).
Proof.
  intros Hh Hw. unfold np_empty.
  destruct (Z.ltb_spec h 0), (Z.ltb_spec w 0); simpl; (reflexivity || lia).
Qed.

(** The grid of a table with in-bounds spans is the blank grid with the
    writes of the fill policy replayed on it. *)
Lemma assemble_grid_in_bounds (table : Table) (m : Z) :
  in_bounds table →
  assemble_grid table m
  = Ok (mkArray (Z.to_nat (num_rows table)) (Z.to_nat (num_cols table))
          (replay (table_writes m (cells table))
             (nd_data (blank (num_rows table) (num_cols table))))).
Proof.
  intros (Hh & Hw & Hcells). unfold assemble_grid.
  rewrite np_empty_nonneg, bind_Ok_l by done.
  rewrite fill_loop_writes.
  - rewrite for_each_write_nonneg; [reflexivity|]. simpl.
    rewrite !Z2Nat.id by done. by apply table_in_bounds_writes.
  - eapply Forall_impl; [exact Hcells|]. intros cell.
    apply cell_in_bounds_defined.
Qed.

(** *** Reading the grid after the writes *)

Lemma blank_shape_ok (h w : Z) : shape_ok (blank h w).
Proof.
  unfold shape_ok, blank. simpl. split; [apply length_replicate|].
  apply Forall_replicate, length_replicate.
Qed.

Lemma slot_replicate (h w i j : nat) :
  (i < h)%nat → (j < w)%nat →
  slot (replicate h (replicate w unset)) i j = Some unset.
Proof.
  intros Hi Hj. unfold slot.
  rewrite lookup_replicate_2 by done. simpl. by rewrite lookup_replicate_2.
Qed.

Lemma write_at_rows (d : list (list obj)) (x : write) :
  length (write_at d x) = length d.
Proof. unfold write_at. apply length_alter. Qed.

Lemma write_at_cols (d : list (list obj)) (x : write) (n : nat) :
  Forall (fun row => length row = n) d →
  Forall (fun row => length row = n) (write_at d x).
Proof.
  intros Hd. unfold write_at. apply Forall_alter; [done|].
  intros row _ Hrow. by rewrite length_insert.
Qed.

Lemma replay_rows (ws : list write) (d : list (list obj)) :
  length (replay ws d) = length d.
Proof.
  revert d. induction ws as [|x ws IH]; intros d; simpl; [done|].
  unfold replay in *. simpl. by rewrite IH, write_at_rows.
Qed.

Lemma replay_cols (ws : list write) (d : list (list obj)) (n : nat) :
  Forall (fun row => length row = n) d →
  Forall (fun row => length row = n) (replay ws d).
Proof.
  revert d. induction ws as [|x ws IH]; intros d Hd; simpl; [done|].
  unfold replay in *. simpl. by apply IH, write_at_cols.
Qed.

Lemma replay_snoc (ws : list write) (x : write) (d : list (list obj)) :
  replay (ws ++ [x]) d = write_at (replay ws d) x.
Proof. unfold replay. by rewrite foldl_app. Qed.

(** One write changes the slot it addresses and no other. *)
Lemma slot_write_at (d : list (list obj)) (r c : Z) (v : string) (i j : nat) (n : nat) :
  0 <= r → 0 <= c →
  (i < length d)%nat → (j < n)%nat →
  Forall (fun row => length row = n) d →
  slot (write_at d (r, c, v)) i j
  = if decide ((r, c) = (Z.of_nat i, Z.of_nat j)) then Some (Some v)
    else slot d i j.
Proof.
  intros Hr Hc Hi Hj Hd. unfold slot, write_at. simpl.
  destruct (lookup_lt_is_Some_2 d i Hi) as [row Hrow].
  assert (length row = n) as Hlen.
  { rewrite Forall_forall in Hd. apply Hd. by eapply list_elem_of_lookup_2. }
  destruct (decide (Z.to_nat r = i)) as [<-|Hne].
  - rewrite list_lookup_alter_eq, Hrow. simpl.
    destruct (decide (Z.to_nat c = j)) as [<-|Hne].
    + rewrite list_lookup_insert_eq by lia.
      rewrite !Z2Nat.id by done. by rewrite decide_True.
    + rewrite list_lookup_insert_ne by done.
      rewrite decide_False; [done|]. intros [= _ ->]. apply Hne. lia.
  - rewrite list_lookup_alter_ne by done.
    rewrite decide_False; [done|]. intros [= -> _]. apply Hne. lia.
Qed.

Lemma last_write_nil (r c : Z) : last_write [] r c = None.
Proof. reflexivity. Qed.

Lemma last_write_app (ws1 ws2 : list write) (r c : Z) :
  last_write (ws1 ++ ws2) r c
  = match last_write ws2 r c with
    | Some v => Some v
    | None => last_write ws1 r c
    end.
Proof.
  unfold last_write. rewrite filter_app.
  destruct (filter _ ws2) as [|x l] eqn:Hf using rev_ind.
  - by rewrite app_nil_r.
  - clear IHl. rewrite app_assoc, !last_snoc. reflexivity.
Qed.

Lemma last_write_snoc (ws : list write) (r c r' c' : Z) (v : string) :
  last_write (ws ++ [(r', c', v)]) r c
  = if decide ((r', c') = (r, c)) then Some v else last_write ws r c.
Proof.
  rewrite last_write_app. unfold last_write at 1.
  rewrite filter_cons, filter_nil. simpl.
  destruct (decide ((r', c') = (r, c))); reflexivity.
Qed.

Lemma last_write_None (ws : list write) (r c : Z) :
  last_write ws r c = None ↔ ∀ v, (r, c, v) ∉ ws.
Proof.
  unfold last_write. rewrite fmap_None, last_None. split.
  - intros Hf v Hin.
    assert ((r, c, v) ∈ filter (fun w : write => w.1 = (r, c)) ws) as Hin'
      by (by apply list_elem_of_filter).
    rewrite Hf in Hin'. by apply elem_of_nil in Hin'.
  - intros Hno.
    destruct (filter (fun w : write => w.1 = (r, c)) ws) as [|[[r' c'] v] l] eqn:Hf;
      [done|].
    assert ((r', c', v) ∈ filter (fun w : write => w.1 = (r, c)) ws) as Hin
      by (rewrite Hf; by left).
    apply list_elem_of_filter in Hin as [[= -> ->] Hin]. by apply Hno in Hin.
Qed.

Lemma last_write_Some (ws : list write) (r c : Z) (v : string) :
  last_write ws r c = Some v → (r, c, v) ∈ ws.
Proof.
  unfold last_write. intros Hl.
  apply fmap_Some in Hl as ([[r' c'] v'] & Hl & ->).
  apply last_Some in Hl as (l' & Hl).
  assert ((r', c', v') ∈ filter (fun w : write => w.1 = (r, c)) ws) as Hin
    by (rewrite Hl; apply elem_of_app; right; by left).
  by apply list_elem_of_filter in Hin as [[= -> ->] Hin].
Qed.

(** A slot of the grid holds what the last write to it stored, and is
    left as it was when no write addresses it. *)
Lemma slot_replay (ws : list write) (d : list (list obj)) (i j : nat) (n : nat) :
  Forall (fun x : write => 0 <= x.1.1 ∧ 0 <= x.1.2) ws →
  (i < length d)%nat → (j < n)%nat →
  Forall (fun row => length row = n) d →
  slot (replay ws d) i j
  = match last_write ws (Z.of_nat i) (Z.of_nat j) with
    | Some v => Some (Some v)
    | None => slot d i j
    end.
Proof.
  intros Hws Hi Hj Hd. induction ws as [|[[r c] v] ws IH] using rev_ind.
  - reflexivity.
  - apply Forall_app in Hws as [Hws Hx]. apply Forall_singleton in Hx as [Hr Hc].
    simpl in Hr, Hc.
    rewrite replay_snoc, last_write_snoc.
    rewrite (slot_write_at _ r c v i j n); try done.
    + destruct (decide _); [done|]. by apply IH.
    + by rewrite replay_rows.
    + by apply replay_cols.
Qed.


Ltac solve_in_bounds :=
  repeat first
    [ progress (unfold in_bounds, cell_in_bounds, in_range; simpl)
    | split | apply Forall_cons | apply Forall_nil | lia | discriminate ].

(** The grid of a table with in-bounds spans, slot by slot, for any
    header prefix [m]. *)
Lemma assemble_grid_slots (table : Table) (m : Z) :
  in_bounds table →
  ∃ grid,
    assemble_grid table m = Ok grid ∧
    nd_rows grid = Z.to_nat (num_rows table) ∧
    nd_cols grid = Z.to_nat (num_cols table) ∧
    nd_data grid
    = replay (table_writes m (cells table))
        (nd_data (blank (num_rows table) (num_cols table))) ∧
    ∀ i j : nat, (i < nd_rows grid)%nat → (j < nd_cols grid)%nat →
      cell_at grid i j
      = Some (match last_write (table_writes m (cells table))
                      (Z.of_nat i) (Z.of_nat j) with
              | Some v => Some v
              | None => unset
              end).
Proof.
  intros Hb. eexists. split; [by apply assemble_grid_in_bounds|].
  simpl. repeat split. intros i j Hi Hj. unfold cell_at. simpl.
  destruct Hb as (Hh & Hw & Hcells).
  rewrite (slot_replay _ _ i j (Z.to_nat (num_cols table))).
  - rewrite slot_replicate by done. by destruct (last_write _ _ _).
  - eapply Forall_impl; [by apply table_in_bounds_writes|].
    intros x Hx. simpl in Hx. lia.
  - simpl. by rewrite length_replicate.
  - done.
  - apply blank_shape_ok.
Qed.

(** ** Flattening the header *)

Section keep_first.
Context {A : Type} `{EqDecision A}.
Implicit Types l : list A.

Lemma filter_absorb (P : A → Prop) `{!∀ x, Decision (P x)} (x : A) l :
  ¬ P x → filter P (filter (fun y => y ≠ x) l) = filter P l.
Proof.
  intros Hx. rewrite list_filter_filter. apply list_filter_iff.
  intros y. split; [tauto|]. intros Hy. split; [done|]. by intros ->.
Qed.

Lemma filter_swap (P Q : A → Prop)
    `{!∀ x, Decision (P x)} `{!∀ x, Decision (Q x)} l :
  filter P (filter Q l) = filter Q (filter P l).
Proof. rewrite !list_filter_filter. apply list_filter_iff. tauto. Qed.

Lemma keep_first_filter (P : A → Prop) `{!∀ x, Decision (P x)} l :
  keep_first (filter P l) = filter P (keep_first l).
Proof.
  induction l as [|x l IH]; [reflexivity|].
  rewrite filter_cons. simpl. rewrite filter_cons.
  destruct (decide (P x)) as [Hx|Hx]; simpl.
  - by rewrite IH, filter_swap.
  - by rewrite IH, filter_absorb.
Qed.

Lemma elem_of_keep_first l x : x ∈ keep_first l ↔ x ∈ l.
Proof.
  induction l as [|y l IH]; simpl; [done|].
  rewrite !elem_of_cons, list_elem_of_filter, IH.
  destruct (decide (x = y)) as [->|Hne]; [split; by left|].
  split; [intros [?|[_ ?]]; [by left|by right]|].
  intros [?|?]; [by left|by right].
Qed.

Lemma NoDup_keep_first l : NoDup (keep_first l).
Proof.
  induction l as [|y l IH]; simpl; constructor.
  - rewrite list_elem_of_filter. by intros [? _].
  - by apply NoDup_filter.
Qed.

(** The dict-insertion loop keeps exactly the first occurrences. *)
Lemma foldl_insert_keep_first l (acc : list A) :
  foldl (fun d k => if decide (k ∈ d) then d else d ++ [k]) acc l
  = acc ++ keep_first (filter (fun y => y ∉ acc) l).
Proof.
  revert acc. induction l as [|x l IH]; intros acc; simpl.
  - by rewrite app_nil_r.
  - rewrite filter_cons. destruct (decide (x ∈ acc)) as [Hin|Hin].
    + rewrite decide_False by tauto. apply IH.
    + rewrite decide_True by done. rewrite IH. simpl.
      rewrite <- app_assoc. simpl. do 2 f_equal.
      rewrite <- keep_first_filter, list_filter_filter. f_equal.
      apply list_filter_iff. intros y.
      rewrite elem_of_app, list_elem_of_singleton. tauto.
Qed.
End keep_first.

Lemma fromkeys_keep_first (it : list obj) : fromkeys it = keep_first it.
Proof.
  unfold fromkeys. rewrite foldl_insert_keep_first. simpl. f_equal.
  induction it as [|x it IH]; [reflexivity|].
  rewrite filter_cons_True by apply not_elem_of_nil. by rewrite IH.
Qed.

Lemma filter_map_Some (P : string → Prop) (Q : obj → Prop)
    `{!∀ x, Decision (P x)} `{!∀ x, Decision (Q x)} (l : list string) :
  (∀ s, Q (Some s) ↔ P s) →
  filter Q (map Some l) = map Some (filter P l).
Proof.
  intros HPQ. induction l as [|s l IH]; [reflexivity|].
  change (map Some (s :: l)) with (Some s :: map Some l).
  rewrite !filter_cons, IH.
  destruct (decide (Q (Some s))) as [HQ|HQ], (decide (P s)) as [HP|HP].
  - reflexivity.
  - exfalso. apply HP. by apply HPQ.
  - exfalso. apply HQ. by apply HPQ.
  - reflexivity.
Qed.

Lemma keep_first_map_Some (l : list string) :
  keep_first (map Some l) = map Some (keep_first l).
Proof.
  induction l as [|s l IH]; [reflexivity|].
  simpl. rewrite IH. f_equal.
  apply filter_map_Some. intros s'. split; [by intros ? ->|by intros ? [= ->]].
Qed.

Lemma as_strings_map_Some (l : list string) : as_strings (map Some l) = Ok l.
Proof. induction l as [|s l IH]; simpl; [done|]. by rewrite IH. Qed.

Lemma as_strings_cases (it : list obj) :
  (∃ ss, it = map Some ss ∧ as_strings it = Ok ss) ∨
  (None ∈ it ∧ as_strings it = Raise TypeError).
Proof.
  induction it as [|[s|] it IH]; simpl.
  - left. by exists [].
  - destruct IH as [(ss & -> & ->)|[Hin ->]].
    + left. by exists (s :: ss).
    + right. split; [by right|done].
  - right. split; [by left|done].
Qed.

(** A column made of strings gets the label the specification describes. *)
Lemma column_label_strings (ss : list string) :
  column_label (map Some ss) = Ok (flat_label ss).
Proof.
  unfold column_label, flat_label, str_join.
  rewrite (filter_map_Some (fun s => s ≠ "") (fun c => c ≠ Some ""))
    by (intros s; split; congruence).
  rewrite fromkeys_keep_first, keep_first_map_Some, as_strings_map_Some.
  reflexivity.
Qed.

(** A column with an unset slot makes [join] raise. *)
Lemma column_label_unset (npcol : list obj) :
  None ∈ npcol → column_label npcol = Raise TypeError.
Proof.
  intros Hin. unfold column_label, str_join.
  destruct (as_strings_cases (fromkeys (filter (fun c => c ≠ Some "") npcol)))
    as [(ss & Heq & _)|[_ ->]]; [|reflexivity].
  exfalso.
  assert (None ∈ fromkeys (filter (fun c : obj => c ≠ Some "") npcol)) as Hin'.
  { rewrite fromkeys_keep_first, elem_of_keep_first, list_elem_of_filter. done. }
  rewrite Heq in Hin'. rewrite list_elem_of_In in Hin'.
  apply in_map_iff in Hin' as (s & ? & _). discriminate.
Qed.

Lemma column_label_cases (npcol : list obj) :
  (∃ ss, npcol = map Some ss ∧ column_label npcol = Ok (flat_label ss)) ∨
  (None ∈ npcol ∧ column_label npcol = Raise TypeError).
Proof.
  destruct (as_strings_cases npcol) as [(ss & -> & _)|[Hin _]].
  - left. exists ss. split; [done|]. apply column_label_strings.
  - right. split; [done|]. by apply column_label_unset.
Qed.

Lemma for_each_collect {A B : Type} (f : A -> result B) (xs : list A) (acc : list B) :
  for_each xs (fun acc x => y ← f x; Ok (acc ++ [y])) acc
  = ys ← traverse f xs; Ok (acc ++ ys).
Proof.
  revert acc. induction xs as [|x xs IH]; intros acc; simpl.
  - by rewrite app_nil_r.
  - destruct (f x) as [y|e]; simpl; [|reflexivity].
    rewrite IH. destruct (traverse f xs); simpl; [|reflexivity].
    by rewrite <- app_assoc.
Qed.

Lemma flatten_header_traverse (header : ndarray) :
  flatten_header header = traverse column_label (transpose header).
Proof.
  unfold flatten_header. rewrite for_each_collect.
  by destruct (traverse column_label (transpose header)).
Qed.

Lemma traverse_column_label_cases (colsl : list (list obj)) :
  (∃ sss, colsl = map (map Some) sss ∧
          traverse column_label colsl = Ok (map flat_label sss)) ∨
  ((∃ col, col ∈ colsl ∧ None ∈ col) ∧
   traverse column_label colsl = Raise TypeError).
Proof.
  induction colsl as [|col colsl IH]; simpl.
  - left. by exists [].
  - destruct (column_label_cases col) as [(ss & -> & ->)|[Hin ->]]; simpl.
    + destruct IH as [(sss & -> & ->)|[(col & Hc & Hin) ->]]; simpl.
      * left. by exists (ss :: sss).
      * right. split; [|done]. exists col. split; [by right|done].
    + right. split; [|done]. exists col. split; [by left|done].
Qed.

(** ** The shape of the assembled grid *)

Lemma for_each_inv {A S : Type} (I : S → Prop) (body : S -> A -> result S) xs s s' :
  (∀ s x s', I s → body s x = Ok s' → I s') →
  I s → for_each xs body s = Ok s' → I s'.
Proof.
  intros Hbody. revert s. induction xs as [|x xs IH]; intros s Hs; simpl.
  - by intros [= <-].
  - intros (s1 & Hx & Hrest)%bind_Ok. eapply IH; [|exact Hrest]. eauto.
Qed.

Lemma setitem_shape_ok (g g' : ndarray) (r c : Z) (v : string) :
  shape_ok g → setitem g r c v = Ok g' → shape_ok g'.
Proof.
  intros [Hlen Hrows]. unfold setitem.
  intros (i & _ & (j & _ & [= <-])%bind_Ok)%bind_Ok.
  split; simpl; [by rewrite length_alter|].
  apply Forall_alter; [done|]. intros row _ Hrow. by rewrite length_insert.
Qed.

Lemma fill_cell_shape_ok (m : Z) (g g' : ndarray) (cell : Cell) :
  shape_ok g → fill_cell m g cell = Ok g' → shape_ok g'.
Proof.
  rewrite fill_cell_writes. destruct (cell_defined m cell); [|discriminate].
  intros Hg. apply for_each_inv; [|done].
  intros s [[r c] v] s'. apply setitem_shape_ok.
Qed.

Lemma assemble_grid_shape (table : Table) (m : Z) (g : ndarray) :
  assemble_grid table m = Ok g →
  shape_ok g ∧
  0 <= num_rows table ∧ 0 <= num_cols table ∧
  nd_rows g = Z.to_nat (num_rows table) ∧
  nd_cols g = Z.to_nat (num_cols table).
Proof.
  unfold assemble_grid, np_empty.
  destruct (Z.ltb_spec (num_rows table) 0), (Z.ltb_spec (num_cols table) 0);
    simpl; try discriminate.
  intros Hfill. split.
  - eapply for_each_inv; [| |exact Hfill].
    + intros s x s'. apply fill_cell_shape_ok.
    + apply (blank_shape_ok (num_rows table) (num_cols table)).
  - destruct (fill_loop_cases m (cells table)
                (blank (num_rows table) (num_cols table)))
      as [(_ & g' & Hg' & Hh & Hw)|[_ Hg']];
      unfold blank in Hg'; rewrite Hg' in Hfill; [|discriminate].
    injection Hfill as <-. by rewrite Hh, Hw.
Qed.

(** ** Slices and columns *)

Lemma slice_bound_nonneg (n : nat) (k : Z) :
  0 <= k → slice_bound n k = (Z.to_nat k `min` n)%nat.
Proof.
  intros Hk. unfold slice_bound. destruct (Z.ltb_spec k 0); lia.
Qed.

Lemma rows_upto_shape_ok (a : ndarray) (k : Z) :
  shape_ok a → shape_ok (rows_upto a k).
Proof.
  intros [Hlen Hrows]. unfold rows_upto, shape_ok. simpl. split.
  - rewrite length_take, Hlen. unfold slice_bound.
    destruct (Z.ltb_spec k 0); lia.
  - by apply Forall_take.
Qed.

Lemma cell_at_rows_upto (a : ndarray) (k : Z) (i j : nat) :
  (i < nd_rows (rows_upto a k))%nat →
  cell_at (rows_upto a k) i j = cell_at a i j.
Proof.
  unfold rows_upto, cell_at, slot. simpl. intros Hi.
  by rewrite lookup_take_lt.
Qed.

Lemma rows_from_0 (a : ndarray) : rows_from a 0 = a.
Proof.
  destruct a as [h w d]. unfold rows_from, slice_bound. simpl.
  replace (Z.to_nat (0 `min` Z.of_nat h)) with 0%nat by lia.
  by rewrite Nat.sub_0_r.
Qed.

Lemma transpose_length (a : ndarray) : length (transpose a) = nd_cols a.
Proof. unfold transpose. by rewrite length_map, length_seq. Qed.

Lemma transpose_lookup (a : ndarray) (j : nat) :
  (j < nd_cols a)%nat →
  transpose a !! j = Some (map (fun row => row !!! j) (nd_data a)).
Proof.
  intros Hj. unfold transpose.
  change (map ?f (seq 0 (nd_cols a))) with (f <$> seq 0 (nd_cols a)).
  rewrite list_lookup_fmap, lookup_seq_lt by done. reflexivity.
Qed.

Lemma column_lookup (a : ndarray) (i j : nat) :
  shape_ok a → (i < nd_rows a)%nat → (j < nd_cols a)%nat →
  map (fun row => row !!! j) (nd_data a) !! i = cell_at a i j.
Proof.
  intros [Hlen Hrows] Hi Hj. unfold cell_at, slot.
  change (map ?f (nd_data a)) with (f <$> nd_data a).
  rewrite list_lookup_fmap.
  destruct (lookup_lt_is_Some_2 (nd_data a) i) as [row Hrow]; [lia|].
  rewrite Hrow. simpl.
  assert (length row = nd_cols a) as Hl.
  { rewrite Forall_forall in Hrows. apply Hrows.
    by eapply list_elem_of_lookup_2. }
  symmetry. rewrite list_lookup_lookup_total_lt by lia. reflexivity.
Qed.

Lemma column_strings (l : list (list obj)) (c : nat) (ss : list string) :
  Forall (fun row => (c < length row)%nat) l →
  map (fun row => row !!! c) l = map Some ss →
  omap (fun row => mjoin (row !! c)) l = ss.
Proof.
  revert ss. induction l as [|row l IH]; intros [|s ss] Hl; simpl;
    try discriminate; [done|].
  apply Forall_cons in Hl as [Hrow Hl]. intros [= Hs Hrest].
  rewrite (list_lookup_lookup_total_lt row c Hrow), Hs. simpl.
  f_equal. by apply IH.
Qed.

(** The flattening succeeds exactly when the array holds no unset slot. *)
Lemma flatten_header_cases (a : ndarray) :
  shape_ok a →
  (all_set a ∧
   ∃ labels, flatten_header a = Ok labels ∧
     length labels = nd_cols a ∧
     ∀ c, (c < nd_cols a)%nat →
       labels !! c
       = Some (flat_label (omap (fun row => mjoin (row !! c)) (nd_data a)))) ∨
  (¬ all_set a ∧ flatten_header a = Raise TypeError).
Proof.
  intros Hok. rewrite flatten_header_traverse.
  destruct (traverse_column_label_cases (transpose a))
    as [(sss & Hsss & ->)|[(col & Hcol & Hin) ->]].
  - left.
    assert (length sss = nd_cols a) as Hlen.
    { rewrite <- transpose_length, Hsss. by rewrite length_map. }
    assert (∀ c ss, sss !! c = Some ss →
              map (fun row => row !!! c) (nd_data a) = map Some ss) as Hcols.
    { intros c ss Hc.
      assert (c < nd_cols a)%nat as Hlt
        by (rewrite <- Hlen; by eapply lookup_lt_Some).
      pose proof (transpose_lookup a c Hlt) as Ht. rewrite Hsss in Ht.
      change (map (map Some) sss) with (map Some <$> sss) in Ht.
      rewrite list_lookup_fmap, Hc in Ht. by injection Ht as <-. }
    split.
    + intros i j Hi Hj.
      destruct (lookup_lt_is_Some_2 sss j) as [ss Hss]; [lia|].
      rewrite <- (column_lookup a i j) by done. rewrite (Hcols j ss Hss).
      change (map Some ss) with (Some <$> ss). rewrite list_lookup_fmap.
      destruct (lookup_lt_is_Some_2 ss i) as [s ->]; [|by exists s].
      rewrite <- (length_map Some), <- (Hcols j ss Hss), length_map.
      destruct Hok as [-> _]. done.
    + exists (map flat_label sss). split; [done|].
      split; [by rewrite length_map|].
      intros c Hc. destruct (lookup_lt_is_Some_2 sss c) as [ss Hss]; [lia|].
      change (map flat_label sss) with (flat_label <$> sss).
      rewrite list_lookup_fmap, Hss. simpl. do 2 f_equal. symmetry.
      apply column_strings; [|by apply Hcols].
      destruct Hok as [_ Hrows]. eapply Forall_impl; [exact Hrows|].
      intros row Hrow. simpl in Hrow. lia.
  - right. split; [|done]. intros Hall.
    apply list_elem_of_lookup in Hcol as [j Hj].
    assert (j < nd_cols a)%nat as Hlt.
    { rewrite <- transpose_length. by eapply lookup_lt_Some. }
    rewrite transpose_lookup in Hj by done. injection Hj as <-.
    apply list_elem_of_lookup in Hin as [i Hi].
    assert (i < nd_rows a)%nat as Hlti.
    { apply lookup_lt_Some in Hi. rewrite length_map in Hi.
      destruct Hok as [<- _]. done. }
    rewrite column_lookup in Hi by done.
    destruct (Hall i j Hlti Hlt) as [s Hs]. congruence.
Qed.

Lemma take_min_length {A : Type} (l : list A) (n : nat) :
  take (n `min` length l) l = take n l.
Proof.
  destruct (Nat.le_gt_cases n (length l)) as [Hle|Hgt].
  - by rewrite Nat.min_l.
  - rewrite Nat.min_r, !take_ge by lia. done.
Qed.

Lemma drop_min_length {A : Type} (l : list A) (n : nat) :
  drop (n `min` length l) l = drop n l.
Proof.
  destruct (Nat.le_gt_cases n (length l)) as [Hle|Hgt].
  - by rewrite Nat.min_l.
  - rewrite Nat.min_r, !drop_ge by lia. done.
Qed.

Lemma rows_upto_data (a : ndarray) (k : Z) :
  shape_ok a → 0 <= k →
  nd_data (rows_upto a k) = take (Z.to_nat k) (nd_data a).
Proof.
  intros [Hlen _] Hk. unfold rows_upto. simpl.
  rewrite slice_bound_nonneg, <- Hlen by done. apply take_min_length.
Qed.

(** The rows strictly below row [k - 1]. *)
Lemma rows_from_data (a : ndarray) (k : Z) :
  shape_ok a → 0 <= k →
  nd_data (rows_from a k) = drop (Z.to_nat k) (nd_data a).
Proof.
  intros [Hlen _] Hk. unfold rows_from. simpl.
  rewrite slice_bound_nonneg, <- Hlen by done. apply drop_min_length.
Qed.

Lemma header_set_all_set (g : ndarray) (m : Z) :
  -1 <= m → (all_set (rows_upto g (m + 1)) ↔ header_set g m).
Proof.
  intros Hm. unfold all_set, header_set.
  assert (∀ i : nat, (i < nd_rows (rows_upto g (m + 1)))%nat
                     ↔ Z.of_nat i <= m ∧ (i < nd_rows g)%nat) as Hrows.
  { intros i. unfold rows_upto. simpl. rewrite slice_bound_nonneg by lia. lia. }
  split.
  - intros Hall i j Him Hi Hj.
    rewrite <- (cell_at_rows_upto g (m + 1)) by (apply Hrows; done).
    apply Hall; [by apply Hrows|done].
  - intros Hset i j Hi Hj. rewrite cell_at_rows_upto by done.
    apply Hrows in Hi as [Him Hi]. by apply Hset.
Qed.

(** What [tables_to_pandas] builds from the assembled grid: the labels and
    the rows below the header region when the header region holds strings
    only, a TypeError otherwise. *)
Lemma table_to_dataframe_cases (table : Table) (g : ndarray) :
  assemble_grid table (header_prefix table) = Ok g →
  (header_set g (header_prefix table) ∧
   ∃ labels,
     length labels = nd_cols g ∧
     (∀ c, (c < nd_cols g)%nat →
        labels !! c = Some (flat_label (header_values g (header_prefix table) c))) ∧
     table_to_dataframe table
     = Ok (mkDataFrame (if 0 <=? header_prefix table then Some labels else None)
             (rows_from g (header_prefix table + 1)))) ∨
  (¬ header_set g (header_prefix table) ∧
   table_to_dataframe table = Raise TypeError).
Proof.
  intros Hasm. pose proof (assemble_grid_shape _ _ _ Hasm) as (Hok & _).
  unfold table_to_dataframe. fold (header_prefix table). rewrite Hasm, bind_Ok_l.
  pose proof (max_header_prefix_row_range (header_rows table)) as [Hm _].
  fold (header_prefix table) in Hm.
  destruct (flatten_header_cases (rows_upto g (header_prefix table + 1)))
    as [(Hall & labels & -> & Hlen & Hlab)|[Hbad ->]].
  - by apply rows_upto_shape_ok.
  - left. split; [by apply header_set_all_set|].
    exists labels. split; [exact Hlen|]. split.
    + intros c Hc. rewrite Hlab by exact Hc.
      unfold header_values. by rewrite rows_upto_data by (done || lia).
    + rewrite bind_Ok_l. unfold pd_DataFrame.
      destruct (0 <=? header_prefix table); [|done].
      rewrite decide_True; [done|]. exact Hlen.
  - right. split; [|done]. intros Hset. apply Hbad.
    by apply header_set_all_set.
Qed.

Lemma region_grid_assembled :
  assemble_grid region_table (header_prefix region_table) = Ok region_grid.
Proof. vm_compute. reflexivity. Qed.

(** ** Covered and uncovered positions *)

Lemma elem_of_table_writes (m : Z) (cs : list Cell) (x : write) :
  x ∈ table_writes m cs ↔ ∃ cell, cell ∈ cs ∧ x ∈ cell_writes m cell.
Proof.
  unfold table_writes. rewrite (list_elem_of_In (flat_map _ _)), in_flat_map.
  split; intros (cell & Hc & Hx); exists cell.
  - by rewrite !list_elem_of_In.
  - by rewrite <- !list_elem_of_In.
Qed.

(** No write reaches a position outside every span; some write reaches a
    position inside the span of a cell. *)
Lemma last_write_uncovered (m : Z) (cs : list Cell) (r c : Z) :
  (∀ cell, cell ∈ cs → ¬ covers cell r c) →
  last_write (table_writes m cs) r c = None.
Proof.
  intros Hun. apply last_write_None. intros v Hin.
  apply elem_of_table_writes in Hin as (cell & Hc & Hx).
  apply (Hun cell Hc). by eapply cell_writes_in_span.
Qed.

Lemma last_write_covered (m : Z) (cs : list Cell) (cell : Cell) (r c : Z) :
  cell ∈ cs → cell_defined m cell = true → covers cell r c →
  ∃ v, last_write (table_writes m cs) r c = Some v.
Proof.
  intros Hc Hdef Hcov.
  destruct (last_write (table_writes m cs) r c) as [v|] eqn:Hl; [by exists v|].
  exfalso. destruct (cell_writes_cover m cell r c Hdef Hcov) as [v Hv].
  rewrite last_write_None in Hl. apply (Hl v).
  apply elem_of_table_writes. by exists cell.
Qed.

Lemma in_bounds_cell_defined (table : Table) (m : Z) (cell : Cell) :
  in_bounds table → cell ∈ cells table → cell_defined m cell = true.
Proof.
  intros (_ & _ & Hcells) Hc. rewrite Forall_forall in Hcells.
  eapply cell_in_bounds_defined. by apply Hcells.
Qed.

(** In the grid of a table with in-bounds spans, the unset slots are the
    positions no span contains. *)
Lemma assembled_slot_unset (table : Table) (m : Z) (g : ndarray) (i j : nat) :
  in_bounds table → assemble_grid table m = Ok g →
  (i < nd_rows g)%nat → (j < nd_cols g)%nat →
  (cell_at g i j = Some unset ↔
   ∀ cell, cell ∈ cells table → ¬ covers cell (Z.of_nat i) (Z.of_nat j)) ∧
  (cell_at g i j ≠ Some unset → ∃ s, cell_at g i j = Some (Some s)).
Proof.
  intros Hb Hasm Hi Hj.
  destruct (assemble_grid_slots table m Hb) as (g' & Hg' & _ & _ & _ & Hslot).
  rewrite Hasm in Hg'. injection Hg' as <-.
  rewrite (Hslot i j Hi Hj). split; [split|].
  - intros Hl cell Hc Hcov.
    destruct (last_write_covered m (cells table) cell
                (Z.of_nat i) (Z.of_nat j) Hc) as [v Hv];
      [by eapply in_bounds_cell_defined|done|].
    rewrite Hv in Hl. discriminate.
  - intros Hun. by rewrite last_write_uncovered.
  - destruct (last_write _ _ _) as [v|]; [by exists v|done].
Qed.

Lemma all_set_rows_from (g : ndarray) (k : Z) :
  shape_ok g → all_set g → all_set (rows_from g k).
Proof.
  intros [Hlen _] Hall i j Hi Hj. unfold rows_from in *. simpl in *.
  unfold cell_at, slot. simpl. rewrite lookup_drop.
  apply Hall; [lia|done].
Qed.

Lemma all_set_header_set (g : ndarray) (m : Z) : all_set g → header_set g m.
Proof. intros Hall i j _. apply Hall. Qed.

(** A tiling leaves no slot unset. *)
Lemma well_formed_all_set (table : Table) (m : Z) (g : ndarray) :
  well_formed table → assemble_grid table m = Ok g → all_set g.
Proof.
  intros [Hb Htiles] Hasm i j Hi Hj.
  pose proof (assemble_grid_shape _ _ _ Hasm) as (_ & Hh & Hw & Hr & Hc).
  destruct (assembled_slot_unset table m g i j Hb Hasm Hi Hj) as [Hun Hset].
  apply Hset. intros Hu. pose proof (proj1 Hun Hu) as Hno.
  destruct (Htiles (Z.of_nat i) (Z.of_nat j)) as (cell & Hcell & Hcov);
    [lia|lia|]. by apply (Hno cell).
Qed.

Lemma elem_of_range (n : nat) (x : Z) : In x (range n) ↔ 0 <= x < Z.of_nat n.
Proof.
  unfold range. rewrite in_map_iff. split.
  - intros (k & <- & Hk%in_seq). lia.
  - intros Hx. exists (Z.to_nat x). split; [lia|]. apply in_seq. lia.
Qed.

Lemma tilesb_sound (table : Table) : tilesb table = true → tiles table.
Proof.
  unfold tilesb, tiles. rewrite forallb_forall. intros Hall r c Hr Hc.
  specialize (Hall r). rewrite forallb_forall in Hall.
  assert (In r (range (Z.to_nat (num_rows table)))) as Hin
    by (apply elem_of_range; lia).
  specialize (Hall Hin c).
  assert (In c (range (Z.to_nat (num_cols table)))) as Hin'
    by (apply elem_of_range; lia).
  apply Hall in Hin'. apply existsb_exists in Hin' as (cell & Hcell & Hcov).
  exists cell. split; [by apply list_elem_of_In|].
  by apply bool_decide_eq_true in Hcov.
Qed.

Lemma header_set_covered (table : Table) (g : ndarray) :
  in_bounds table →
  assemble_grid table (header_prefix table) = Ok g →
  (header_set g (header_prefix table) ↔ header_region_covered table).
Proof.
  intros Hb Hasm.
  pose proof (assemble_grid_shape _ _ _ Hasm) as (_ & Hh & Hw & Hr & Hc).
  split.
  - intros Hset r c Hrm Hrh Hcw.
    destruct (decide (Exists (fun cell => covers cell r c) (cells table)))
      as [Hex|Hno]; [by apply Exists_exists in Hex|exfalso].
    destruct (Hset (Z.to_nat r) (Z.to_nat c)) as [s Hs]; [lia..|].
    destruct (assembled_slot_unset table _ g (Z.to_nat r) (Z.to_nat c) Hb Hasm)
      as [Hun _]; [lia..|].
    assert (cell_at g (Z.to_nat r) (Z.to_nat c) = Some unset) as Hu.
    { apply Hun. intros cell Hcell Hcov. apply Hno, Exists_exists.
      exists cell. rewrite !Z2Nat.id in Hcov by lia. done. }
    unfold unset in Hu. congruence.
  - intros Hcov i j Him Hi Hj.
    destruct (assembled_slot_unset table _ g i j Hb Hasm Hi Hj) as [Hun Hset].
    apply Hset. intros Hu. pose proof (proj1 Hun Hu) as Hno.
    destruct (Hcov (Z.of_nat i) (Z.of_nat j)) as (cell & Hcell & Hc');
      [lia..|]. by apply (Hno cell).
Qed.

Lemma uncovered_Forall (table : Table) (r c : Z) :
  Forall (fun cell => ¬ covers cell r c) (cells table) → uncovered table r c.
Proof. intros Hall cell Hc. rewrite Forall_forall in Hall. by apply Hall. Qed.

Lemma uncovered_not_tiles (table : Table) (r c : Z) :
  0 <= r < num_rows table → 0 <= c < num_cols table →
  uncovered table r c → ¬ tiles table.
Proof.
  intros Hr Hc Hun Ht. destruct (Ht r c Hr Hc) as (cell & Hcell & Hcov).
  by apply (Hun cell).
Qed.

Ltac solve_uncovered :=
  apply uncovered_Forall; apply (bool_decide_unpack _); vm_compute; exact I.

(** ** Cells the loop cannot get past *)

Lemma cell_fills_index_ok (h w : nat) (m : Z) (cell : Cell) (r c : Z) :
  cell_fills h w m cell → covers cell r c → index_ok h r ∧ index_ok w c.
Proof.
  intros [Hdef Hall] Hcov.
  destruct (cell_writes_cover m cell r c Hdef Hcov) as [v Hv].
  rewrite Forall_forall in Hall. apply (Hall _ Hv).
Qed.

Lemma cell_fills_rows (h w : nat) (m : Z) (cell : Cell) :
  cell_fills h w m cell → rows cell ≠ [].
Proof. intros [Hdef _]. unfold cell_defined in Hdef. by destruct (rows cell). Qed.

(** The table is not reconstructed as soon as one cell does not fill. *)
Lemma table_to_dataframe_unfilled (table : Table) (cell : Cell) :
  0 <= num_rows table → 0 <= num_cols table →
  cell ∈ cells table →
  ¬ cell_fills (Z.to_nat (num_rows table)) (Z.to_nat (num_cols table))
      (header_prefix table) cell →
  table_to_dataframe table = Raise IndexError.
Proof.
  intros Hh Hw Hc Hbad. unfold table_to_dataframe, assemble_grid.
  fold (header_prefix table).
  rewrite np_empty_nonneg, bind_Ok_l by done.
  destruct (fill_loop_cases (header_prefix table) (cells table)
              (blank (num_rows table) (num_cols table)))
    as [(Hall & _)|[_ ->]]; [|reflexivity].
  exfalso. apply Hbad. rewrite Forall_forall in Hall. by apply Hall.
Qed.

Lemma blanks_no_cols (rs : list Z) : blanks rs [] = [].
Proof. induction rs as [|r rs IH]; [done|]. simpl. exact IH. Qed.

(** ** The loop over the elements *)

Lemma tables_to_pandas_traverse (elements : list Element) :
  tables_to_pandas elements = traverse pair_of elements.
Proof.
  unfold tables_to_pandas.
  rewrite (for_each_ext _ _ (fun acc e => y ← pair_of e; Ok (acc ++ [y]))).
  - rewrite for_each_collect. by destruct (traverse pair_of elements).
  - intros acc e _. unfold pair_of.
    destruct (elem_table e) as [table|]; simpl.
    + rewrite andb_true_r. destruct (String.eqb (elem_type e) "table"); simpl;
        [|done]. by destruct (table_to_dataframe table).
    + by rewrite andb_false_r.
Qed.

Lemma traverse_Ok {A B : Type} (f : A -> result B) (xs : list A) :
  Forall (fun x => ∃ y, f x = Ok y) xs →
  ∃ ys, traverse f xs = Ok ys ∧ Forall2 (fun x y => f x = Ok y) xs ys.
Proof.
  induction 1 as [|x xs [y Hy] _ (ys & Hys & Hall)]; simpl.
  - exists []. by split.
  - exists (y :: ys). rewrite Hy, Hys. split; [done|]. by constructor.
Qed.

Lemma traverse_Raise {A B : Type} (f : A -> result B) (xs1 xs2 : list A) x e :
  Forall (fun x => ∃ y, f x = Ok y) xs1 → f x = Raise e →
  traverse f (xs1 ++ x :: xs2) = Raise e.
Proof.
  intros Hall Hx. induction Hall as [|x1 xs1 [y Hy] _ IH]; simpl.
  - by rewrite Hx.
  - by rewrite Hy, IH.
Qed.

Lemma pair_of_Ok (e : Element) :
  (∀ table, is_table_element e table → ∃ df, table_to_dataframe table = Ok df) →
  ∃ p, pair_of e = Ok p.
Proof.
  intros Htab. unfold pair_of.
  destruct (elem_table e) as [table|] eqn:Ht; [|by eexists].
  destruct (String.eqb_spec (elem_type e) "table") as [Hty|Hty]; [|by eexists].
  destruct (Htab table) as [df ->]; [by split|]. by eexists.
Qed.

Lemma pair_of_spec (e : Element) (p : Element * option DataFrame) :
  pair_of e = Ok p →
  p.1 = e ∧
  ((∃ table df, is_table_element e table ∧
                table_to_dataframe table = Ok df ∧ p.2 = Some df) ∨
   ((elem_type e ≠ "table" ∨ elem_table e = None) ∧ p.2 = None)).
Proof.
  unfold pair_of, is_table_element.
  destruct (elem_table e) as [table|] eqn:Ht.
  - destruct (String.eqb_spec (elem_type e) "table") as [Hty|Hty].
    + intros (df & Hdf & [= <-])%bind_Ok. split; [done|]. left.
      by exists table, df.
    + intros [= <-]. split; [done|]. right. split; [by left|done].
  - intros [= <-]. split; [done|]. right. split; [by right|done].
Qed.

Lemma pair_of_Raise (e : Element) (table : Table) (err : exn) :
  is_table_element e table → table_to_dataframe table = Raise err →
  pair_of e = Raise err.
Proof.
  intros [Hty Ht] Herr. unfold pair_of. rewrite Ht, Hty. simpl. by rewrite Herr.
Qed.

(** ** Tables without header cells *)

Lemma header_row_nums_no_header (cs : list Cell) :
  Forall (fun cell => is_header cell = false) cs → header_row_nums cs = [].
Proof.
  induction 1 as [|cell cs Hc _ IH]; [done|].
  unfold header_row_nums in *. simpl. rewrite IH, Hc, app_nil_r.
  induction (rows cell) as [|r rs IHr]; [done|]. simpl. exact IHr.
Qed.

Lemma header_prefix_no_header (table : Table) :
  Forall (fun cell => is_header cell = false) (cells table) →
  header_prefix table = -1.
Proof.
  intros Hno. unfold header_prefix, header_rows.
  by rewrite header_row_nums_no_header.
Qed.

Lemma table_writes_snoc (m : Z) (cs : list Cell) (cell : Cell) :
  table_writes m (cs ++ [cell]) = table_writes m cs ++ cell_writes m cell.
Proof. unfold table_writes. rewrite flat_map_app. simpl. by rewrite app_nil_r. Qed.

(** The last write to a position comes from the last cell whose span
    contains the position. *)
Lemma last_write_table (m : Z) (cs : list Cell) (r c : Z) :
  Forall (fun cell => cell_defined m cell = true) cs →
  last_write (table_writes m cs) r c
  = last (filter (fun cell => covers cell r c) cs)
      ≫= fun cell => last_write (cell_writes m cell) r c.
Proof.
  induction cs as [|cell cs IH] using rev_ind; intros Hdef; [done|].
  apply Forall_app in Hdef as [Hdef Hcell].
  rewrite Forall_singleton in Hcell.
  rewrite table_writes_snoc, last_write_app, filter_app.
  rewrite filter_cons, filter_nil.
  destruct (decide (covers cell r c)) as [Hcov|Hcov].
  - rewrite last_snoc. simpl.
    destruct (cell_writes_cover m cell r c Hcell Hcov) as [v Hv].
    destruct (last_write (cell_writes m cell) r c) as [v'|] eqn:Hl; [done|].
    rewrite last_write_None in Hl. by apply Hl in Hv.
  - rewrite app_nil_r, <- IH by done.
    destruct (last_write (cell_writes m cell) r c) as [v|] eqn:Hl; [|done].
    apply last_write_Some, cell_writes_in_span in Hl. done.
Qed.

Lemma last_write_cons (x : write) (ws : list write) (r c : Z) :
  last_write (x :: ws) r c
  = match last_write ws r c with
    | Some v => Some v
    | None => if decide (x.1 = (r, c)) then Some x.2 else None
    end.
Proof.
  change (x :: ws) with ([x] ++ ws). rewrite last_write_app.
  destruct (last_write ws r c); [done|].
  unfold last_write. rewrite filter_cons, filter_nil.
  by destruct (decide (x.1 = (r, c))).
Qed.

(** A cell outside the header prefix, with no index repeated, shows its
    content at its top-left position and blanks over the rest of its
    span. *)
Lemma last_write_data_cell (m : Z) (cell : Cell) (r c : Z) :
  in_header_prefix m cell = false →
  cell_defined m cell = true →
  distinct_indices cell →
  covers cell r c →
  last_write (cell_writes m cell) r c = Some (top_left_value cell r c).
Proof.
  intros Hpre Hdef [Hnr Hnc] Hcov.
  pose proof (cell_writes_cover m cell r c Hdef Hcov) as [v Hv].
  revert Hv. unfold cell_writes, data_writes, top_left_value, covers in *.
  rewrite Hpre.
  destruct (rows cell) as [|r0 rs]; [by intros ?%elem_of_nil|].
  destruct (cols cell) as [|c0 cs]; [by intros ?%elem_of_nil|].
  apply NoDup_cons in Hnr as [Hr0 _]. apply NoDup_cons in Hnc as [Hc0 _].
  simpl. intros Hv. rewrite last_write_cons. simpl.
  set (rest := map (fun c => (r0, c, "")) cs ++ blanks rs (c0 :: cs)) in *.
  assert (∀ r' c' v', (r', c', v') ∈ rest → v' = "" ∧ (r', c') ≠ (r0, c0))
    as Hrest.
  { intros r' c' v'. unfold rest.
    rewrite elem_of_app, elem_of_row_writes, elem_of_blanks.
    intros [(-> & Hc' & ->)|(Hr' & Hc' & ->)]; (split; [done|]).
    - intros [= ->]. done.
    - intros [= -> ->]. done. }
  destruct (last_write rest r c) as [v'|] eqn:Hl.
  - apply last_write_Some, Hrest in Hl as [-> Hne].
    rewrite decide_False; [done|]. intros [[= ->] [= ->]]. done.
  - rewrite last_write_None in Hl.
    apply elem_of_cons in Hv as [[= -> -> ->]|Hv]; [|by apply Hl in Hv].
    by rewrite !decide_True.
Qed.

Lemma in_header_prefix_no_header (m : Z) (cell : Cell) :
  is_header cell = false → in_header_prefix m cell = false.
Proof. intros H. unfold in_header_prefix. by rewrite H. Qed.

(** The grid of a table without header cells is built from the top-left
    positions of the cells. *)
Lemma last_write_top_left (m : Z) (cs : list Cell) (r c : Z) :
  Forall (fun cell => cell_defined m cell = true) cs →
  Forall (fun cell => is_header cell = false) cs →
  Forall distinct_indices cs →
  match last_write (table_writes m cs) r c with
  | Some v => Some v
  | None => unset
  end = top_left_slot cs r c.
Proof.
  intros Hdef Hno Hnd. rewrite last_write_table by done. unfold top_left_slot.
  destruct (last (filter (fun cell => covers cell r c) cs)) as [cell|] eqn:Hl;
    [|done].
  simpl. apply last_Some in Hl as [l' Hl].
  assert (cell ∈ filter (fun cell => covers cell r c) cs) as Hin
    by (rewrite Hl; apply elem_of_app; right; by left).
  apply list_elem_of_filter in Hin as [Hcov Hin].
  rewrite Forall_forall in Hdef, Hno, Hnd.
  rewrite last_write_data_cell; auto using in_header_prefix_no_header.
Qed.

(** ** Reordering cells with disjoint spans *)

Lemma disjoint_filter_length (cs : list Cell) (r c : Z) :
  pairwise_disjoint cs →
  (length (filter (fun cell => covers cell r c) cs) ≤ 1)%nat.
Proof.
  induction cs as [|a cs IH]; simpl; [lia|]. intros [Ha Hcs].
  rewrite filter_cons. destruct (decide (covers a r c)) as [Hcov|Hcov];
    [|by apply IH].
  assert (filter (fun cell => covers cell r c) cs = []) as ->; [|simpl; lia].
  destruct (filter (fun cell => covers cell r c) cs) as [|b l] eqn:Hf; [done|].
  assert (b ∈ filter (fun cell => covers cell r c) cs) as Hb
    by (rewrite Hf; by left).
  apply list_elem_of_filter in Hb as [Hcovb Hb].
  rewrite Forall_forall in Ha. destruct (Ha b Hb r c). done.
Qed.

Lemma Permutation_short {A : Type} (l l' : list A) :
  l ≡ₚ l' → (length l ≤ 1)%nat → l = l'.
Proof.
  intros Hp Hlen. destruct l as [|x [|y l]]; simpl in Hlen; [| |lia].
  - by apply Permutation_nil_l.
  - by apply Permutation_singleton_l.
Qed.

Lemma last_write_Permutation (m : Z) (cs cs' : list Cell) (r c : Z) :
  cs' ≡ₚ cs → pairwise_disjoint cs →
  Forall (fun cell => cell_defined m cell = true) cs →
  last_write (table_writes m cs') r c = last_write (table_writes m cs) r c.
Proof.
  intros Hp Hdis Hdef.
  rewrite !last_write_table by (done || by rewrite Hp).
  f_equal. symmetry. f_equal. apply Permutation_short.
  - by rewrite Hp.
  - by apply disjoint_filter_length.
Qed.

Lemma header_rows_Permutation (h w : Z) (cs cs' : list Cell) :
  cs' ≡ₚ cs → header_rows (mkTable h w cs') = header_rows (mkTable h w cs).
Proof.
  intros Hp. unfold header_rows. simpl. apply sorted_set_ext. intros x.
  rewrite !elem_of_header_row_nums. by setoid_rewrite Hp.
Qed.

(** Two arrays of the same shape with the same slots are the same. *)
Lemma data_ext (d d' : list (list obj)) (n : nat) :
  length d = length d' →
  Forall (fun row => length row = n) d →
  Forall (fun row => length row = n) d' →
  (∀ i j, (i < length d)%nat → (j < n)%nat → slot d i j = slot d' i j) →
  d = d'.
Proof.
  intros Hlen Hd Hd' Hslot. apply list_eq. intros i.
  destruct (decide (i < length d)%nat) as [Hi|Hi].
  - destruct (lookup_lt_is_Some_2 d i Hi) as [row Hrow].
    destruct (lookup_lt_is_Some_2 d' i) as [row' Hrow']; [lia|].
    rewrite Hrow, Hrow'. f_equal.
    rewrite Forall_forall in Hd, Hd'.
    assert (length row = n) as Hl by (eapply Hd, list_elem_of_lookup_2; done).
    assert (length row' = n) as Hl' by (eapply Hd', list_elem_of_lookup_2; done).
    apply list_eq. intros j.
    destruct (decide (j < n)%nat) as [Hj|Hj].
    + specialize (Hslot i j Hi Hj). unfold slot in Hslot.
      by rewrite Hrow, Hrow' in Hslot.
    + rewrite !lookup_ge_None_2 by lia. done.
  - rewrite !lookup_ge_None_2 by lia. done.
Qed.

Lemma assemble_grid_Permutation (h w m : Z) (cs cs' : list Cell) :
  in_bounds (mkTable h w cs) → cs' ≡ₚ cs → pairwise_disjoint cs →
  assemble_grid (mkTable h w cs') m = assemble_grid (mkTable h w cs) m.
Proof.
  intros Hb Hp Hdis.
  assert (in_bounds (mkTable h w cs')) as Hb'.
  { destruct Hb as (Hh & Hw & Hall). repeat split; try done. simpl in *.
    by rewrite Hp. }
  destruct (assemble_grid_slots _ m Hb) as (g & -> & Hr & Hc & Hd & Hs).
  destruct (assemble_grid_slots _ m Hb') as (g' & -> & Hr' & Hc' & Hd' & Hs').
  simpl in *. f_equal.
  assert (shape_ok g ∧ shape_ok g') as [[Hl Hrows] [Hl' Hrows']].
  { unfold shape_ok. rewrite Hd, Hd', !replay_rows, Hr, Hr', Hc, Hc'.
    destruct (blank_shape_ok h w) as [Hbl Hbr]. unfold blank in *. simpl in *.
    repeat split; try done; by apply replay_cols. }
  destruct g as [gr gc gd], g' as [gr' gc' gd']. simpl in *. subst gr gc gr' gc'.
  f_equal. symmetry. apply (data_ext gd gd' (Z.to_nat w)); try done.
  - congruence.
  - intros i j Hi Hj. specialize (Hs i j). specialize (Hs' i j).
    unfold cell_at in *. simpl in *. rewrite Hs, Hs' by lia.
    rewrite (last_write_Permutation m cs cs'); try done.
    destruct Hb as (_ & _ & Hall). simpl in Hall.
    eapply Forall_impl; [exact Hall|]. intros cell.
    apply cell_in_bounds_defined.
Qed.

Lemma pairwise_disjointb_sound (cs : list Cell) :
  pairwise_disjointb cs = true → pairwise_disjoint cs.
Proof.
  induction cs as [|a cs IH]; simpl; [done|].
  intros [Ha Hcs]%andb_true_iff. split; [|by apply IH].
  apply Forall_forall. intros b Hb r c [[Hr Hc] Hcovb].
  rewrite forallb_forall in Ha. apply list_elem_of_In in Hb.
  specialize (Ha b Hb). apply bool_decide_eq_true in Ha.
  rewrite Forall_forall in Ha. specialize (Ha r Hr).
  rewrite Forall_forall in Ha. by apply (Ha c Hc).
Qed.

(** Without header cells there is no header region, and the DataFrame is
    the grid itself without column labels. *)
Lemma table_to_dataframe_no_header (table : Table) (g : ndarray) :
  header_prefix table = -1 →
  assemble_grid table (header_prefix table) = Ok g →
  table_to_dataframe table = Ok (mkDataFrame None g).
Proof.
  intros Hm Hasm.
  destruct (table_to_dataframe_cases table g Hasm)
    as [(_ & labels & _ & _ & ->)|[Hbad _]].
  - rewrite Hm. simpl. by rewrite rows_from_0.
  - exfalso. apply Hbad. intros i j Hi. lia.
Qed.

Lemma table_to_dataframe_Permutation (h w : Z) (cs cs' : list Cell) :
  in_bounds (mkTable h w cs) → cs' ≡ₚ cs → pairwise_disjoint cs →
  table_to_dataframe (mkTable h w cs') = table_to_dataframe (mkTable h w cs).
Proof.
  intros Hb Hp Hdis. unfold table_to_dataframe.
  rewrite (header_rows_Permutation h w cs cs' Hp).
  by rewrite (assemble_grid_Permutation h w _ cs cs').
Qed.

(** ** Indices counted from the end *)

Lemma norm_index_ok (n : nat) (i : Z) :
  index_ok n i → norm_index n i = Ok (Z.to_nat (from_end (Z.of_nat n) i)).
Proof.
  unfold index_ok, norm_index, from_end. intros Hi.
  destruct (Z.leb_spec 0 i), (Z.ltb_spec i (Z.of_nat n)),
    (Z.leb_spec (- Z.of_nat n) i), (Z.ltb_spec i 0); simpl;
    (reflexivity || lia).
Qed.

Lemma setitem_ok (g : ndarray) (r c : Z) (v : string) :
  index_ok (nd_rows g) r → index_ok (nd_cols g) c →
  setitem g r c v
  = Ok (mkArray (nd_rows g) (nd_cols g)
          (write_at (nd_data g)
             (land_write (Z.of_nat (nd_rows g)) (Z.of_nat (nd_cols g)) (r, c, v)))).
Proof.
  intros Hr Hc. unfold setitem.
  rewrite (norm_index_ok _ _ Hr), (norm_index_ok _ _ Hc). reflexivity.
Qed.

Lemma for_each_write_ok (ws : list write) (g : ndarray) :
  Forall (write_ok (nd_rows g) (nd_cols g)) ws →
  for_each ws do_write g
  = Ok (mkArray (nd_rows g) (nd_cols g)
          (replay (map (land_write (Z.of_nat (nd_rows g)) (Z.of_nat (nd_cols g))) ws)
             (nd_data g))).
Proof.
  revert g. induction ws as [|[[r c] v] ws IH]; intros g Hall.
  - by destruct g.
  - apply Forall_cons in Hall as [[Hr Hc] Hall]. simpl in Hr, Hc.
    rewrite for_each_cons.
    change (do_write g (r, c, v)) with (setitem g r c v).
    rewrite setitem_ok, bind_Ok_l by done.
    rewrite IH by done. reflexivity.
Qed.

Lemma accepted_cell_defined (h w m : Z) (cell : Cell) :
  accepted_cell h w cell → cell_defined m cell = true.
Proof.
  intros (Hr & Hc & _). unfold cell_defined.
  destruct (rows cell), (cols cell); done.
Qed.

Lemma accepted_cell_writes (h w m : Z) (cell : Cell) :
  0 <= h → 0 <= w → accepted_cell h w cell →
  Forall (write_ok (Z.to_nat h) (Z.to_nat w)) (cell_writes m cell).
Proof.
  intros Hh Hw (_ & _ & Hr & Hc). apply Forall_forall. intros [[r c] v] Hin.
  apply cell_writes_in_span in Hin as [Hr' Hc'].
  rewrite Forall_forall in Hr, Hc. specialize (Hr r Hr'). specialize (Hc c Hc').
  unfold write_ok, index_ok. simpl. rewrite !Z2Nat.id by done. done.
Qed.

(** A table whose cells numpy accepts is assembled, each write landing at
    the position its indices denote, negative ones counted from the end. *)
Lemma assemble_grid_accepted (table : Table) (m : Z) :
  0 <= num_rows table → 0 <= num_cols table →
  Forall (accepted_cell (num_rows table) (num_cols table)) (cells table) →
  assemble_grid table m
  = Ok (mkArray (Z.to_nat (num_rows table)) (Z.to_nat (num_cols table))
          (replay (map (land_write (num_rows table) (num_cols table))
                     (table_writes m (cells table)))
             (nd_data (blank (num_rows table) (num_cols table))))).
Proof.
  intros Hh Hw Hcells. unfold assemble_grid.
  rewrite np_empty_nonneg, bind_Ok_l by done.
  rewrite fill_loop_writes.
  - rewrite for_each_write_ok.
    + unfold blank. simpl. by rewrite !Z2Nat.id.
    + unfold blank. simpl. clear -Hh Hw Hcells.
      induction Hcells as [|cell cs Hc _ IH]; [constructor|].
      unfold table_writes. simpl. apply Forall_app. split; [|exact IH].
      by apply accepted_cell_writes.
  - eapply Forall_impl; [exact Hcells|]. intros cell.
    apply accepted_cell_defined.
Qed.

(** ** What a returned DataFrame is made of *)

Lemma table_to_dataframe_reconstructs (table : Table) (df : DataFrame) :
  table_to_dataframe table = Ok df → reconstructs table df.
Proof.
  intros Hdf.
  destruct (assemble_grid table (header_prefix table)) as [g|e] eqn:Hasm.
  - pose proof (assemble_grid_shape _ _ _ Hasm) as (_ & _ & _ & Hr & Hc).
    destruct (table_to_dataframe_cases table g Hasm)
      as [(_ & labels & Hlen & Hlab & Hres)|[_ Hres]];
      rewrite Hres in Hdf; [|discriminate].
    injection Hdf as <-. exists g. simpl.
    split; [done|]. split; [done|]. split; [done|]. split; [done|].
    destruct (Z.leb_spec 0 (header_prefix table)); [by split|done].
  - unfold table_to_dataframe in Hdf. fold (header_prefix table) in Hdf.
    rewrite Hasm in Hdf. discriminate.
Qed.

(** ** A failing element makes the whole traversal fail *)

Lemma traverse_raises {A B : Type} (f : A -> result B) (xs : list A) x e :
  x ∈ xs → f x = Raise e → ∃ e', traverse f xs = Raise e'.
Proof.
  intros Hin Hx. induction xs as [|x0 xs IH]; [by apply elem_of_nil in Hin|].
  simpl. destruct (f x0) as [y|e0] eqn:H0; simpl; [|by eexists].
  apply elem_of_cons in Hin as [->|Hin]; [congruence|].
  destruct (IH Hin) as [e' ->]. simpl. by eexists.
Qed.

(** * The claims of the specification *)

(** C1. The header rows [H] of a table are the strictly increasing sequence
    of the row indices occurring in the rows of a header-flagged cell, and
    [max_header_prefix_row] is the least index [i] with [H[i] <> i] when
    there is one (the index itself, not its predecessor) and [len(H) - 1]
    otherwise, which is [-1] for the empty [H]; for [H = [0, 1, 2, 4]] it
    is [3]. *)
Theorem C1_max_header_prefix_row (table : Table) :
  let H := header_rows table in
  let m := max_header_prefix_row H in
  StronglySorted Z.lt H ∧
  (∀ r, r ∈ H ↔ ∃ cell, cell ∈ cells table ∧ is_header cell = true ∧ r ∈ rows cell) ∧
  (∀ i : nat, (i < length H)%nat → H !! i ≠ Some (Z.of_nat i) →
     (∀ j : nat, (j < i)%nat → H !! j = Some (Z.of_nat j)) → m = Z.of_nat i) ∧
  ((∀ j : nat, (j < length H)%nat → H !! j = Some (Z.of_nat j)) →
     m = Z.of_nat (length H) - 1) ∧
  (H = [] → m = -1) ∧
  header_rows prefix_break_table = [0; 1; 2; 4] ∧
  max_header_prefix_row [0; 1; 2; 4] = 3.
Proof.
  intros H m. split; [apply sorted_set_sorted|].
  split; [apply elem_of_header_rows|].
  split; [apply max_header_prefix_row_break|].
  split; [apply max_header_prefix_row_complete|].
  split; [|split; reflexivity].
  subst m. intros ->. reflexivity.
Qed.

(** C2. For a table whose cells have non-empty spans inside the grid, the
    grid is the blank grid on which the writes of the cells are performed
    in the order the cells are scanned, a later write replacing an earlier
    one: a header cell with [rows[0] <= max_header_prefix_row] writes its
    content over [cols] at [rows[0]] and blanks over [rows[1:] x cols];
    every other cell writes its content at [(rows[0], cols[0])], blanks at
    [rows[0]] over [cols[1:]] and blanks over [rows[1:] x cols]. *)
Theorem C2_fill_policy (table : Table) :
  in_bounds table →
  (∃ grid,
     assemble_grid table (header_prefix table) = Ok grid ∧
     nd_rows grid = Z.to_nat (num_rows table) ∧
     nd_cols grid = Z.to_nat (num_cols table) ∧
     nd_data grid
     = replay (table_writes (header_prefix table) (cells table))
         (nd_data (blank (num_rows table) (num_cols table))) ∧
     ∀ i j : nat, (i < nd_rows grid)%nat → (j < nd_cols grid)%nat →
       cell_at grid i j
       = Some (match last_write (table_writes (header_prefix table) (cells table))
                       (Z.of_nat i) (Z.of_nat j) with
               | Some v => Some v
               | None => unset
               end)) ∧
  (∀ cell r0 rs,
     rows cell = r0 :: rs → is_header cell = true →
     r0 <= header_prefix table →
     cell_writes (header_prefix table) cell
     = map (fun c => (r0, c, content cell)) (cols cell) ++ blanks rs (cols cell)) ∧
  (∀ cell r0 rs c0 cs,
     rows cell = r0 :: rs → cols cell = c0 :: cs →
     is_header cell = false ∨ header_prefix table < r0 →
     cell_writes (header_prefix table) cell
     = (r0, c0, content cell) :: map (fun c => (r0, c, "")) cs
         ++ blanks rs (c0 :: cs)).
Proof.
  intros Hb. split; [by apply assemble_grid_slots|]. split.
  - intros cell r0 rs Hr Hh Hle.
    unfold cell_writes, in_header_prefix, header_writes. rewrite Hr, Hh. simpl.
    destruct (Z.leb_spec r0 (header_prefix table)); [done|lia].
  - intros cell r0 rs c0 cs Hr Hc Hdata.
    unfold cell_writes, in_header_prefix, data_writes. rewrite Hr, Hc.
    destruct Hdata as [->|Hlt]; [done|].
    destruct (Z.leb_spec r0 (header_prefix table)); [lia|].
    by rewrite andb_false_r.
Qed.

Lemma C2_fill_policy_witness :
  ∃ grid,
    assemble_grid contiguity_table (header_prefix contiguity_table) = Ok grid ∧
    nd_rows grid = 3%nat ∧ nd_cols grid = 2%nat ∧
    nd_data grid
    = replay (table_writes (header_prefix contiguity_table)
                (cells contiguity_table))
        (nd_data (blank 3 2)) ∧
    ∀ i j : nat, (i < nd_rows grid)%nat → (j < nd_cols grid)%nat →
      cell_at grid i j
      = Some (match last_write
                      (table_writes (header_prefix contiguity_table)
                         (cells contiguity_table)) (Z.of_nat i) (Z.of_nat j) with
              | Some v => Some v
              | None => unset
              end).
Proof.
  apply (C2_fill_policy contiguity_table). solve_in_bounds.
Defined.

(** C3. For a table whose grid has been assembled: with
    [max_header_prefix_row < 0] there are no column labels and the data rows
    are the whole grid; with [max_header_prefix_row >= 0], the header rows
    [0..max_header_prefix_row] holding strings, there are exactly
    [num_cols] labels, the label of column [c] being the non-empty values of
    that column in the header rows, top to bottom, every value equal to one
    already kept dropped, joined by [" | "], and the data rows are the rows
    below the header rows, as they are. *)
Theorem C3_header_flattening (table : Table) (grid : ndarray) :
  assemble_grid table (header_prefix table) = Ok grid →
  (header_prefix table < 0 →
     table_to_dataframe table = Ok (mkDataFrame None grid)) ∧
  (0 <= header_prefix table → header_set grid (header_prefix table) →
     ∃ labels,
       table_to_dataframe table
       = Ok (mkDataFrame (Some labels) (rows_from grid (header_prefix table + 1))) ∧
       length labels = Z.to_nat (num_cols table) ∧
       (∀ c, (c < Z.to_nat (num_cols table))%nat →
          labels !! c
          = Some (flat_label (header_values grid (header_prefix table) c))) ∧
       nd_data (rows_from grid (header_prefix table + 1))
       = drop (Z.to_nat (header_prefix table + 1)) (nd_data grid)) ∧
  flat_label ["Region"; "Region"] = "Region" ∧
  flat_label ["2023"; "Q1"] = "2023 | Q1".
Proof.
  intros Hasm.
  pose proof (assemble_grid_shape _ _ _ Hasm) as (Hok & _ & _ & _ & Hw).
  pose proof (max_header_prefix_row_range (header_rows table)) as [Hm _].
  fold (header_prefix table) in Hm.
  split; [|split; [|split; reflexivity]].
  - intros Hneg.
    destruct (table_to_dataframe_cases table grid Hasm)
      as [(_ & labels & _ & _ & ->)|[Hbad _]].
    + destruct (Z.leb_spec 0 (header_prefix table)); [lia|].
      replace (header_prefix table + 1) with 0 by lia.
      by rewrite rows_from_0.
    + exfalso. apply Hbad. intros i j Hi. lia.
  - intros Hpos Hset.
    destruct (table_to_dataframe_cases table grid Hasm)
      as [(_ & labels & Hlen & Hlab & ->)|[Hbad _]]; [|done].
    exists labels. destruct (Z.leb_spec 0 (header_prefix table)); [|lia].
    split; [done|]. rewrite <- Hw. split; [done|]. split; [done|].
    apply rows_from_data; [done|lia].
Qed.

Lemma C3_header_flattening_witness :
  ∃ labels,
    table_to_dataframe region_table
    = Ok (mkDataFrame (Some labels)
            (rows_from region_grid (header_prefix region_table + 1))) ∧
    length labels = Z.to_nat (num_cols region_table) ∧
    (∀ c, (c < Z.to_nat (num_cols region_table))%nat →
       labels !! c
       = Some (flat_label
                 (header_values region_grid (header_prefix region_table) c))) ∧
    nd_data (rows_from region_grid (header_prefix region_table + 1))
    = drop (Z.to_nat (header_prefix region_table + 1)) (nd_data region_grid).
Proof.
  destruct (C3_header_flattening region_table region_grid) as (_ & H & _).
  - vm_compute. reflexivity.
  - apply H.
    + vm_compute. discriminate.
    + intros i j _ Hi Hj. simpl in Hi, Hj.
      destruct i as [|[|[|i]]]; destruct j as [|[|j]]; try lia;
        eexists; reflexivity.
Defined.

(** C4. The grid of a well-formed table (non-empty spans inside the grid,
    leaving no position out) is assembled with [num_rows] rows and
    [num_cols] columns, and every slot of it holds a string a cell wrote,
    never the unset marker; so does every slot of the data rows that are
    returned; the unset marker is not the empty string. *)
Theorem C4_full_coverage (table : Table) :
  well_formed table →
  ∃ grid df,
    assemble_grid table (header_prefix table) = Ok grid ∧
    nd_rows grid = Z.to_nat (num_rows table) ∧
    nd_cols grid = Z.to_nat (num_cols table) ∧
    shape_ok grid ∧
    all_set grid ∧
    (∀ i j : nat, (i < nd_rows grid)%nat → (j < nd_cols grid)%nat →
       ∃ cell v, cell ∈ cells table ∧
         (Z.of_nat i, Z.of_nat j, v) ∈ cell_writes (header_prefix table) cell ∧
         cell_at grid i j = Some (Some v)) ∧
    (∀ r c, 0 <= r < num_rows table → 0 <= c < num_cols table →
       ∃ s, cell_at grid (Z.to_nat r) (Z.to_nat c) = Some (Some s)) ∧
    table_to_dataframe table = Ok df ∧
    df_values df = rows_from grid (header_prefix table + 1) ∧
    all_set (df_values df) ∧
    unset ≠ Some "".
Proof.
  intros Hwf. pose proof Hwf as [Hb Htiles].
  destruct (assemble_grid_slots table (header_prefix table) Hb)
    as (grid & Hasm & Hr & Hc & _ & Hslot).
  pose proof (assemble_grid_shape _ _ _ Hasm) as (Hok & _).
  pose proof (well_formed_all_set _ _ _ Hwf Hasm) as Hall.
  destruct (table_to_dataframe_cases table grid Hasm)
    as [(_ & labels & _ & _ & Hdf)|[Hbad _]];
    [|exfalso; by apply Hbad, all_set_header_set].
  eexists grid, _. split; [done|]. split; [done|]. split; [done|].
  split; [done|]. split; [done|]. split; [|split].
  - intros i j Hi Hj. destruct (Hall i j Hi Hj) as [s Hs].
    pose proof Hs as Hw. rewrite (Hslot i j Hi Hj) in Hw.
    destruct (last_write _ _ _) as [v|] eqn:Hl; [|discriminate].
    injection Hw as ->.
    apply last_write_Some, elem_of_table_writes in Hl as (cell & Hcell & Hx).
    exists cell, s. done.
  - intros r c Hrr Hcc. apply Hall; lia.
  - split; [exact Hdf|]. split; [done|]. split; [|done].
    by apply all_set_rows_from.
Qed.

Lemma C4_full_coverage_witness :
  assemble_grid contiguity_table (header_prefix contiguity_table)
  = Ok (mkArray 3 2
          [[Some "Name"; Some "Name"]; [Some ""; Some ""];
           [Some "Alice"; Some "30"]]) ∧
  ∃ grid df,
    assemble_grid contiguity_table (header_prefix contiguity_table) = Ok grid ∧
    nd_rows grid = Z.to_nat (num_rows contiguity_table) ∧
    nd_cols grid = Z.to_nat (num_cols contiguity_table) ∧
    shape_ok grid ∧
    all_set grid ∧
    (∀ i j : nat, (i < nd_rows grid)%nat → (j < nd_cols grid)%nat →
       ∃ cell v, cell ∈ cells contiguity_table ∧
         (Z.of_nat i, Z.of_nat j, v)
           ∈ cell_writes (header_prefix contiguity_table) cell ∧
         cell_at grid i j = Some (Some v)) ∧
    (∀ r c, 0 <= r < num_rows contiguity_table →
       0 <= c < num_cols contiguity_table →
       ∃ s, cell_at grid (Z.to_nat r) (Z.to_nat c) = Some (Some s)) ∧
    table_to_dataframe contiguity_table = Ok df ∧
    df_values df = rows_from grid (header_prefix contiguity_table + 1) ∧
    all_set (df_values df) ∧
    unset ≠ Some "".
Proof.
  split; [vm_compute; reflexivity|].
  apply (C4_full_coverage contiguity_table). split.
  - solve_in_bounds.
  - apply tilesb_sound. vm_compute. reflexivity.
Defined.

(** C5, as the code has it. Indices are handed to numpy. For a table of
    non-negative dimensions that numpy allocates (fewer than [2^60] slots)
    and whose indices fit a signed 64-bit word: when a
    cell has a column index outside [[-num_cols, num_cols)], or a row index
    outside [[-num_rows, num_rows)] and at least one column, the
    reconstruction raises an IndexError and no DataFrame is built; when
    every cell has non-empty spans with indices in
    [[-num_rows, num_rows)] and [[-num_cols, num_cols)], no index is
    refused and the grid is assembled, an index in [[-n, 0)] standing for
    the position [index + n], counted from the end of the axis. *)
Theorem C5_out_of_bounds (table : Table) :
  0 <= num_rows table → 0 <= num_cols table →
  shape_fits table → indices_fit table →
  (∀ cell, cell ∈ cells table →
     (cols cell ≠ [] ∧
      ∃ r, r ∈ rows cell ∧ ¬ (- num_rows table <= r < num_rows table)) ∨
     (∃ c, c ∈ cols cell ∧ ¬ (- num_cols table <= c < num_cols table)) →
     table_to_dataframe table = Raise IndexError) ∧
  (Forall (accepted_cell (num_rows table) (num_cols table)) (cells table) →
     ∃ grid,
       assemble_grid table (header_prefix table) = Ok grid ∧
       nd_rows grid = Z.to_nat (num_rows table) ∧
       nd_cols grid = Z.to_nat (num_cols table) ∧
       nd_data grid
       = replay (map (land_write (num_rows table) (num_cols table))
                   (table_writes (header_prefix table) (cells table)))
           (nd_data (blank (num_rows table) (num_cols table))) ∧
       table_to_dataframe table ≠ Raise IndexError) ∧
  (∀ n i, 0 <= n → - n <= i < 0 →
     from_end n i = i + n ∧ 0 <= from_end n i < n) ∧
  (∀ n i, 0 <= i < n → from_end n i = i).
Proof.
  intros Hh Hw _ _. split; [|split; [|split]].
  - intros cell Hc Hbad.
    apply (table_to_dataframe_unfilled table cell Hh Hw Hc). intros Hfill.
    destruct Hbad as [[Hcols (r & Hr & Hout)]|(c & Hcin & Hout)].
    + destruct (cols cell) as [|c0 cs] eqn:Hcs; [done|].
      destruct (cell_fills_index_ok _ _ _ _ r c0 Hfill) as [Hok _].
      * split; [done|]. rewrite Hcs. by left.
      * unfold index_ok in Hok. lia.
    + pose proof (cell_fills_rows _ _ _ _ Hfill) as Hrows.
      destruct (rows cell) as [|r0 rs] eqn:Hrs; [done|].
      destruct (cell_fills_index_ok _ _ _ _ r0 c Hfill) as [_ Hok].
      * split; [|done]. rewrite Hrs. by left.
      * unfold index_ok in Hok. lia.
  - intros Hacc. eexists.
    split; [by apply assemble_grid_accepted|]. simpl.
    split; [done|]. split; [done|]. split; [done|].
    pose proof (assemble_grid_accepted table (header_prefix table) Hh Hw Hacc)
      as Hasm.
    destruct (table_to_dataframe_cases table _ Hasm)
      as [(_ & labels & _ & _ & ->)|[_ ->]]; discriminate.
  - intros n i Hn Hi. unfold from_end.
    destruct (Z.ltb_spec i 0); lia.
  - intros n i Hi. unfold from_end. destruct (Z.ltb_spec i 0); lia.
Qed.

Lemma C5_out_of_bounds_witness :
  table_to_dataframe row_five_table = Raise IndexError ∧
  ∃ grid,
    assemble_grid from_end_table (header_prefix from_end_table) = Ok grid ∧
    nd_rows grid = 3%nat ∧ nd_cols grid = 1%nat ∧
    nd_data grid = [[None]; [None]; [Some "x"]] ∧
    table_to_dataframe from_end_table ≠ Raise IndexError.
Proof.
  split.
  - destruct (C5_out_of_bounds row_five_table) as (Hbad & _).
    + simpl. lia.
    + simpl. lia.
    + unfold shape_fits, int64. simpl. lia.
    + apply (bool_decide_unpack _). vm_compute. exact I.
    + apply (Hbad (dat [5] [0] "x")); [by left|].
      left. split; [discriminate|]. exists 5. split; [by left|]. simpl. lia.
  - destruct (C5_out_of_bounds from_end_table) as (_ & Hacc & _).
    + simpl. lia.
    + simpl. lia.
    + unfold shape_fits, int64. simpl. lia.
    + apply (bool_decide_unpack _). vm_compute. exact I.
    + destruct Hacc as (grid & Hasm & Hr & Hc & Hd & Hne).
      * unfold accepted_cell. simpl.
        repeat first [apply Forall_cons | apply Forall_nil | split
                     | discriminate | lia].
      * exists grid. split; [done|]. split; [done|]. split; [done|].
        split; [|done]. rewrite Hd. vm_compute. reflexivity.
Defined.

(** The row index [-1] lies outside [[0, 3)] and is taken as the last row;
    a header cell of the header prefix without columns performs no
    assignment, whatever its rows are. *)
Lemma C5_counterexample :
  (∃ cell r, cell ∈ cells from_end_table ∧ r ∈ rows cell ∧
             ¬ (0 <= r < num_rows from_end_table)) ∧
  table_to_dataframe from_end_table
  = Ok (mkDataFrame None (mkArray 3 1 [[None]; [None]; [Some "x"]])) ∧
  (∃ cell r, cell ∈ cells no_cols_table ∧ r ∈ rows cell ∧
             ¬ (- num_rows no_cols_table <= r < num_rows no_cols_table)) ∧
  table_to_dataframe no_cols_table
  = Ok (mkDataFrame (Some ["x"]) (mkArray 0 1 [])).
Proof.
  split; [|split; [vm_compute; reflexivity|split; [|vm_compute; reflexivity]]].
  - exists (dat [-1] [0] "x"), (-1). split; [by left|]. split; [by left|].
    simpl. lia.
  - exists (hdr [0; 7] [] "h"), 7. split; [by left|].
    split; [right; by left|]. simpl. lia.
Qed.

(** C6, as the code has it. Nothing checks the spans; a table (of
    non-negative dimensions) is rejected with an IndexError when a cell has
    an empty [rows], or has an empty [cols] and is not a header cell with
    [rows[0] <= max_header_prefix_row]. A header cell of the header prefix
    with an empty [cols] assigns nothing and raises nothing. *)
Theorem C6_empty_span (table : Table) (cell : Cell) :
  0 <= num_rows table → 0 <= num_cols table →
  cell ∈ cells table →
  (rows cell = [] → table_to_dataframe table = Raise IndexError) ∧
  (cols cell = [] → in_header_prefix (header_prefix table) cell = false →
     table_to_dataframe table = Raise IndexError) ∧
  (cols cell = [] → in_header_prefix (header_prefix table) cell = true →
     ∀ grid, fill_cell (header_prefix table) grid cell = Ok grid).
Proof.
  intros Hh Hw Hc. split; [|split].
  - intros Hrows. apply (table_to_dataframe_unfilled table cell Hh Hw Hc).
    intros Hfill. by apply cell_fills_rows in Hfill.
  - intros Hcols Hpre. apply (table_to_dataframe_unfilled table cell Hh Hw Hc).
    intros [Hdef _]. unfold cell_defined in Hdef. rewrite Hcols, Hpre in Hdef.
    by destruct (rows cell).
  - intros Hcols Hpre grid. rewrite fill_cell_writes.
    unfold cell_defined, cell_writes, header_writes. rewrite Hcols, Hpre.
    destruct (rows cell) as [|r0 rs] eqn:Hrs.
    + unfold in_header_prefix in Hpre. rewrite Hrs, andb_false_r in Hpre. done.
    + simpl. by rewrite blanks_no_cols.
Qed.

Lemma C6_empty_span_witness :
  table_to_dataframe (mkTable 1 1 [dat [] [0] "x"]) = Raise IndexError ∧
  table_to_dataframe (mkTable 1 1 [dat [0] [] "x"]) = Raise IndexError ∧
  ∀ grid,
    fill_cell (header_prefix empty_cols_table) grid (hdr [0] [] "x") = Ok grid.
Proof.
  split; [|split].
  - destruct (C6_empty_span (mkTable 1 1 [dat [] [0] "x"]) (dat [] [0] "x"))
      as (Hrows & _); [simpl; lia|simpl; lia|by left|].
    by apply Hrows.
  - destruct (C6_empty_span (mkTable 1 1 [dat [0] [] "x"]) (dat [0] [] "x"))
      as (_ & Hcols & _); [simpl; lia|simpl; lia|by left|].
    by apply Hcols.
  - destruct (C6_empty_span empty_cols_table (hdr [0] [] "x"))
      as (_ & _ & Hnone); [simpl; lia|simpl; lia|by left|].
    by apply Hnone.
Defined.

(** A header cell with an empty [cols] in the header prefix: the table is
    reconstructed all the same. *)
Lemma C6_counterexample :
  (∃ cell, cell ∈ cells empty_cols_table ∧ cols cell = []) ∧
  table_to_dataframe empty_cols_table
  = Ok (mkDataFrame (Some ["y"]) (mkArray 0 1 [])).
Proof.
  split; [|vm_compute; reflexivity].
  exists (hdr [0] [] "x"). split; [by left|done].
Qed.

(** C7, as the code has it. Nothing catches an exception inside the loop
    over the elements: when the reconstruction of a table raises, and the
    tables before it were reconstructed, [tables_to_pandas] raises the same
    exception and returns no list, whatever elements follow. *)
Theorem C7_error_propagation
    (before after : list Element) (e : Element) (table : Table) (err : exn) :
  is_table_element e table →
  table_to_dataframe table = Raise err →
  (∀ e' table', e' ∈ before → is_table_element e' table' →
     ∃ df, table_to_dataframe table' = Ok df) →
  tables_to_pandas (before ++ e :: after) = Raise err.
Proof.
  intros He Herr Hbefore. rewrite tables_to_pandas_traverse.
  apply traverse_Raise; [|by eapply pair_of_Raise].
  apply Forall_forall. intros e' He'. apply pair_of_Ok.
  intros table' Ht. by apply (Hbefore e').
Qed.

Lemma C7_error_propagation_witness :
  tables_to_pandas
    ([] ++ mkElement "table" (Some row_five_table) []
        :: [mkElement "table" (Some one_cell_table) []])
  = Raise IndexError.
Proof.
  apply (C7_error_propagation [] _ _ row_five_table IndexError).
  - by split.
  - vm_compute. reflexivity.
  - intros e' table' He'. by apply elem_of_nil in He'.
Defined.

(** The second table is reconstructed on its own, yet the response with
    both tables yields no result for it. *)
Lemma C7_counterexample :
  table_to_dataframe row_five_table = Raise IndexError ∧
  table_to_dataframe one_cell_table
  = Ok (mkDataFrame None (mkArray 1 1 [[Some "x"]])) ∧
  tables_to_pandas bad_then_good = Raise IndexError.
Proof. repeat split; vm_compute; reflexivity. Qed.

(** C8, as the code has it. For a table with non-empty spans inside the
    grid that leave positions out, the grid is assembled with the unset
    marker at exactly those positions, and a DataFrame is returned when
    every position of the header rows [0..max_header_prefix_row] belongs to
    some span; a position of the header rows outside every span makes the
    reconstruction raise a TypeError. *)
Theorem C8_non_tiling (table : Table) :
  in_bounds table →
  ∃ grid,
    assemble_grid table (header_prefix table) = Ok grid ∧
    (∀ i j : nat, (i < nd_rows grid)%nat → (j < nd_cols grid)%nat →
       (cell_at grid i j = Some unset
        ↔ uncovered table (Z.of_nat i) (Z.of_nat j))) ∧
    (header_region_covered table →
       ∃ df, table_to_dataframe table = Ok df ∧
             df_values df = rows_from grid (header_prefix table + 1)) ∧
    (¬ header_region_covered table →
       table_to_dataframe table = Raise TypeError).
Proof.
  intros Hb.
  destruct (assemble_grid_slots table (header_prefix table) Hb)
    as (grid & Hasm & _).
  exists grid. split; [done|]. split.
  - intros i j Hi Hj.
    by destruct (assembled_slot_unset table _ grid i j Hb Hasm Hi Hj).
  - pose proof (header_set_covered table grid Hb Hasm) as Hiff.
    destruct (table_to_dataframe_cases table grid Hasm)
      as [(Hset & labels & _ & _ & Hdf)|[Hbad Hdf]].
    + split; [|intros Hno; exfalso; by apply Hno, Hiff].
      intros _. eexists. split; [exact Hdf|done].
    + split; [intros Hcov; exfalso; by apply Hbad, Hiff|done].
Qed.

Lemma C8_non_tiling_witness :
  ¬ tiles gap_in_data_table ∧
  ∃ grid df,
    assemble_grid gap_in_data_table (header_prefix gap_in_data_table)
    = Ok grid ∧
    cell_at grid 1 1 = Some unset ∧
    table_to_dataframe gap_in_data_table = Ok df ∧
    df_values df = rows_from grid (header_prefix gap_in_data_table + 1).
Proof.
  split.
  - apply (uncovered_not_tiles gap_in_data_table 1 1); [simpl; lia..|].
    solve_uncovered.
  - destruct (C8_non_tiling gap_in_data_table)
      as (grid & Hasm & Hunset & Hok & _); [solve_in_bounds|].
    destruct Hok as (df & Hdf & Hval).
    + intros r c Hr _ Hc. change (header_prefix gap_in_data_table) with 0 in Hr.
      exists (hdr [0] [0; 1] "h"). split; [by left|].
      assert (r = 0) as -> by lia.
      assert (c = 0 ∨ c = 1) as [-> | ->] by (simpl in Hc; lia);
        (split; [by left|]); [by left|right; by left].
    + exists grid, df. split; [done|]. split; [|by split].
      pose proof Hasm as Hg. vm_compute in Hg. injection Hg as <-.
      apply (Hunset 1%nat 1%nat); [simpl; lia..|]. solve_uncovered.
Defined.

(** With the gap inside the header row, the reconstruction does not
    complete. *)
Lemma C8_counterexample :
  in_bounds gap_in_header_table ∧
  uncovered gap_in_header_table 0 1 ∧
  table_to_dataframe gap_in_header_table = Raise TypeError.
Proof.
  split; [solve_in_bounds|]. split; [|vm_compute; reflexivity].
  solve_uncovered.
Qed.

(** C9. For a table whose cells have non-empty spans inside the grid:
    when no cell is header-flagged (and no cell repeats an index), there
    are no column labels and the data rows are the grid in which every
    cell shows its content at its top-left position [(rows[0], cols[0])]
    and blanks over the rest of its span, the last cell containing a
    position deciding; and when the spans are pairwise disjoint, any
    reordering of the cells gives the same result. *)
Theorem C9_no_header_and_reordering (table : Table) :
  in_bounds table →
  (Forall (fun cell => is_header cell = false) (cells table) →
   Forall distinct_indices (cells table) →
   ∃ grid,
     table_to_dataframe table = Ok (mkDataFrame None grid) ∧
     nd_rows grid = Z.to_nat (num_rows table) ∧
     nd_cols grid = Z.to_nat (num_cols table) ∧
     ∀ i j : nat, (i < nd_rows grid)%nat → (j < nd_cols grid)%nat →
       cell_at grid i j
       = Some (top_left_slot (cells table) (Z.of_nat i) (Z.of_nat j))) ∧
  (∀ cells', cells' ≡ₚ cells table → pairwise_disjoint (cells table) →
     table_to_dataframe (mkTable (num_rows table) (num_cols table) cells')
     = table_to_dataframe table).
Proof.
  intros Hb. split.
  - intros Hno Hnd.
    pose proof (header_prefix_no_header table Hno) as Hm.
    destruct (assemble_grid_slots table (header_prefix table) Hb)
      as (grid & Hasm & Hr & Hc & _ & Hslot).
    exists grid. split; [by apply table_to_dataframe_no_header|].
    split; [done|]. split; [done|].
    intros i j Hi Hj. rewrite (Hslot i j Hi Hj). f_equal.
    apply last_write_top_left; try done.
    destruct Hb as (_ & _ & Hall).
    eapply Forall_impl; [exact Hall|]. intros cell.
    apply cell_in_bounds_defined.
  - intros cells' Hp Hdis. destruct table as [h w cs]. simpl in *.
    by apply table_to_dataframe_Permutation.
Qed.

Lemma C9_no_header_and_reordering_witness :
  (∃ grid,
     table_to_dataframe two_by_two_table = Ok (mkDataFrame None grid) ∧
     nd_rows grid = 2%nat ∧ nd_cols grid = 2%nat ∧
     ∀ i j : nat, (i < nd_rows grid)%nat → (j < nd_cols grid)%nat →
       cell_at grid i j
       = Some (top_left_slot (cells two_by_two_table)
                 (Z.of_nat i) (Z.of_nat j))) ∧
  table_to_dataframe
    (mkTable 2 2 [dat [0] [1] "b"; dat [0; 1] [0] "a"; dat [1] [1] "c"])
  = table_to_dataframe two_by_two_table.
Proof.
  destruct (C9_no_header_and_reordering two_by_two_table) as [Hgrid Hperm].
  - solve_in_bounds.
  - split.
    + apply Hgrid; apply (bool_decide_unpack _); vm_compute; exact I.
    + apply (Hperm [dat [0] [1] "b"; dat [0; 1] [0] "a"; dat [1] [1] "c"]).
      * apply perm_swap.
      * apply pairwise_disjointb_sound. vm_compute. reflexivity.
Defined.

(** C10, as the code has it. When every table element of the response is
    reconstructed without an exception, [tables_to_pandas] returns one pair
    per element, in the order of the elements, the element itself first;
    for an element of type ["table"] with a table the second component is
    the DataFrame built from the grid of that table (the rows below the
    header rows, with one flattened label per column when there is a header
    region), and it is [None] for any other element, an element of type
    ["table"] with a null table included. When the reconstruction of some
    table element raises, the call raises and returns no list. *)
Theorem C10_one_pair_per_element (elements : list Element) :
  ((∀ e table, e ∈ elements → is_table_element e table →
      ∃ df, table_to_dataframe table = Ok df) →
   ∃ results,
     tables_to_pandas elements = Ok results ∧
     length results = length elements ∧
     map fst results = elements ∧
     ∀ (i : nat) e r, results !! i = Some (e, r) →
       elements !! i = Some e ∧
       ((∃ table df, is_table_element e table ∧
                     table_to_dataframe table = Ok df ∧
                     reconstructs table df ∧ r = Some df) ∨
        ((elem_type e ≠ "table" ∨ elem_table e = None) ∧ r = None))) ∧
  (∀ e table err, e ∈ elements → is_table_element e table →
     table_to_dataframe table = Raise err →
     ∃ err', tables_to_pandas elements = Raise err').
Proof.
  rewrite tables_to_pandas_traverse. split.
  - intros Htab.
    destruct (traverse_Ok pair_of elements) as (results & -> & Hall).
    { apply Forall_forall. intros e He. apply pair_of_Ok.
      intros table Ht. by apply (Htab e). }
    exists results. split; [done|].
    split; [symmetry; by eapply Forall2_length|]. split.
    + clear Htab. induction Hall as [|e p es ps Hp _ IH]; [done|]. simpl.
      apply pair_of_spec in Hp as [-> _]. by rewrite IH.
    + intros i e r Hi.
      destruct (Forall2_lookup_r _ _ _ _ _ Hall Hi) as (e0 & He0 & Hp).
      apply pair_of_spec in Hp as [Hfst Hsnd]. simpl in Hfst, Hsnd. subst e0.
      split; [done|].
      destruct Hsnd as [(table & df & Ht & Hdf & ->)|Hnone]; [left|by right].
      exists table, df. split; [done|]. split; [done|].
      split; [by apply table_to_dataframe_reconstructs|done].
  - intros e table err He Ht Herr.
    apply (traverse_raises pair_of elements e err He).
    by apply (pair_of_Raise e table).
Qed.

Lemma C10_one_pair_per_element_witness :
  tables_to_pandas mixed_elements
  = Ok [(mkElement "table" (Some one_cell_table) [("page", "1")],
         Some (mkDataFrame None (mkArray 1 1 [[Some "x"]])));
        (mkElement "Text" None [("text", "hello")], None);
        (mkElement "table" None [], None)] ∧
  (∃ results,
     tables_to_pandas mixed_elements = Ok results ∧
     length results = length mixed_elements ∧
     map fst results = mixed_elements ∧
     ∀ (i : nat) e r, results !! i = Some (e, r) →
       mixed_elements !! i = Some e ∧
       ((∃ table df, is_table_element e table ∧
                     table_to_dataframe table = Ok df ∧
                     reconstructs table df ∧ r = Some df) ∨
        ((elem_type e ≠ "table" ∨ elem_table e = None) ∧ r = None))) ∧
  ∃ err', tables_to_pandas bad_then_good = Raise err'.
Proof.
  split; [vm_compute; reflexivity|]. split.
  - apply (C10_one_pair_per_element mixed_elements).
    intros e table He [Hty Ht].
    repeat (apply elem_of_cons in He as [->|He]); simpl in Ht;
      try discriminate; [|by apply elem_of_nil in He].
    injection Ht as <-. eexists. vm_compute. reflexivity.
  - destruct (C10_one_pair_per_element bad_then_good) as [_ Hraise].
    apply (Hraise (mkElement "table" (Some row_five_table) []) row_five_table
             IndexError).
    + by left.
    + by split.
    + vm_compute. reflexivity.
Defined.

(** A response whose first table has a cell outside the grid: the call
    raises and returns no list, not even the pair of the second table,
    which is reconstructed on its own. *)
Lemma C10_counterexample :
  length bad_then_good = 2%nat ∧
  (∃ df, table_to_dataframe one_cell_table = Ok df) ∧
  ¬ ∃ results, tables_to_pandas bad_then_good = Ok results.
Proof.
  split; [reflexivity|]. split; [eexists; vm_compute; reflexivity|].
  intros [results Hres]. vm_compute in Hres. discriminate.
Qed.

(** * Further properties of the code *)

(** ** Outcomes of the reconstruction of one table *)

Lemma cell_rejected_not_fills (table : Table) (cell : Cell) :
  0 <= num_rows table → 0 <= num_cols table →
  cell_rejected table cell →
  ¬ cell_fills (Z.to_nat (num_rows table)) (Z.to_nat (num_cols table))
      (header_prefix table) cell.
Proof.
  intros Hh Hw Hrej Hfill.
  pose proof (cell_fills_rows _ _ _ _ Hfill) as Hrows.
  destruct Hrej as [Hr|[[Hc Hpre]|[[Hc (r & Hr & Hout)]|(c & Hc & Hout)]]].
  - done.
  - destruct Hfill as [Hdef _]. unfold cell_defined in Hdef.
    rewrite Hc, Hpre in Hdef. by destruct (rows cell).
  - destruct (cols cell) as [|c0 cs] eqn:Hcs; [done|].
    destruct (cell_fills_index_ok _ _ _ _ r c0 Hfill) as [Hok _].
    + split; [done|]. rewrite Hcs. by left.
    + unfold index_ok in Hok. lia.
  - destruct (rows cell) as [|r0 rs] eqn:Hrs; [done|].
    destruct (cell_fills_index_ok _ _ _ _ r0 c Hfill) as [_ Hok].
    + split; [|done]. rewrite Hrs. by left.
    + unfold index_ok in Hok. lia.
Qed.

Lemma cell_not_fills_rejected (table : Table) (cell : Cell) :
  0 <= num_rows table → 0 <= num_cols table →
  ¬ cell_fills (Z.to_nat (num_rows table)) (Z.to_nat (num_cols table))
      (header_prefix table) cell →
  cell_rejected table cell.
Proof.
  intros Hh Hw Hno. unfold cell_rejected.
  destruct (cell_defined (header_prefix table) cell) eqn:Hdef.
  - destruct (decide (Forall (write_ok (Z.to_nat (num_rows table))
                                (Z.to_nat (num_cols table)))
                        (cell_writes (header_prefix table) cell)))
      as [Hall|Hbad]; [exfalso; by apply Hno|].
    apply not_Forall_Exists in Hbad; [|apply _].
    apply Exists_exists in Hbad as ([[r c] v] & Hin & Hnok).
    apply cell_writes_in_span in Hin as [Hr Hc].
    unfold write_ok, index_ok in Hnok. simpl in Hnok.
    rewrite !Z2Nat.id in Hnok by done.
    destruct (decide (- num_rows table <= r < num_rows table)) as [Hrok|Hrbad].
    + right. right. right. exists c. split; [done|]. tauto.
    + right. right. left. split; [|by exists r].
      intros Hnil. rewrite Hnil in Hc. by apply elem_of_nil in Hc.
  - unfold cell_defined in Hdef.
    destruct (rows cell) as [|r0 rs]; [by left|].
    destruct (cols cell) as [|c0 cs]; [|done].
    right. left. done.
Qed.

(** The three ways the reconstruction of a table ends without a
    DataFrame, and the one way it ends with one. *)
Lemma table_to_dataframe_outcome (table : Table) :
  ((num_rows table < 0 ∨ num_cols table < 0) ∧
   table_to_dataframe table = Raise ValueError) ∨
  (0 <= num_rows table ∧ 0 <= num_cols table ∧
   (∃ cell, cell ∈ cells table ∧ cell_rejected table cell) ∧
   table_to_dataframe table = Raise IndexError) ∨
  (0 <= num_rows table ∧ 0 <= num_cols table ∧
   (∀ cell, cell ∈ cells table → ¬ cell_rejected table cell) ∧
   ∃ g, assemble_grid table (header_prefix table) = Ok g ∧
     ((header_set g (header_prefix table) ∧
       ∃ labels,
         length labels = nd_cols g ∧
         table_to_dataframe table
         = Ok (mkDataFrame
                 (if 0 <=? header_prefix table then Some labels else None)
                 (rows_from g (header_prefix table + 1)))) ∨
      (¬ header_set g (header_prefix table) ∧
       table_to_dataframe table = Raise TypeError))).
Proof.
  destruct (decide (num_rows table < 0 ∨ num_cols table < 0)) as [Hneg|Hpos].
  { left. split; [done|]. unfold table_to_dataframe, assemble_grid, np_empty.
    destruct (Z.ltb_spec (num_rows table) 0), (Z.ltb_spec (num_cols table) 0);
      simpl; (reflexivity || lia). }
  right. assert (0 <= num_rows table ∧ 0 <= num_cols table) as [Hh Hw] by lia.
  destruct (decide (Forall (fun cell =>
              cell_fills (Z.to_nat (num_rows table)) (Z.to_nat (num_cols table))
                (header_prefix table) cell) (cells table))) as [Hall|Hbad].
  - right. split; [done|]. split; [done|]. split.
    { intros cell Hc Hrej. rewrite Forall_forall in Hall.
      by apply (cell_rejected_not_fills table cell Hh Hw Hrej), Hall. }
    assert (∃ g, assemble_grid table (header_prefix table) = Ok g) as [g Hasm].
    { unfold assemble_grid. rewrite np_empty_nonneg, bind_Ok_l by done.
      destruct (fill_loop_cases (header_prefix table) (cells table)
                  (blank (num_rows table) (num_cols table)))
        as [(_ & g & -> & _)|[Hno _]]; [by exists g|].
      exfalso. by apply Hno. }
    exists g. split; [done|].
    destruct (table_to_dataframe_cases table g Hasm)
      as [(Hset & labels & Hlen & _ & Hdf)|[Hno Hdf]].
    + left. split; [done|]. by exists labels.
    + right. by split.
  - left. split; [done|]. split; [done|].
    apply not_Forall_Exists in Hbad; [|apply _].
    apply Exists_exists in Hbad as (cell & Hc & Hno).
    split.
    + exists cell. split; [done|]. by apply cell_not_fills_rejected.
    + by apply (table_to_dataframe_unfilled table cell).
Qed.

Lemma rows_from_shape_ok (a : ndarray) (k : Z) :
  shape_ok a → shape_ok (rows_from a k).
Proof.
  intros [Hlen Hrows]. unfold rows_from, shape_ok. simpl. split.
  - rewrite length_drop. lia.
  - by apply Forall_drop.
Qed.

(** An array with an unset marker in its first rows. *)
Lemma not_header_set_unset (g : ndarray) (m : Z) :
  shape_ok g → ¬ header_set g m →
  ∃ i j : nat, Z.of_nat i <= m ∧ (i < nd_rows g)%nat ∧ (j < nd_cols g)%nat ∧
               cell_at g i j = Some unset.
Proof.
  intros Hok Hno.
  destruct (decide (Forall (fun i : nat =>
              Forall (fun j : nat =>
                Z.of_nat i <= m → is_Some (mjoin (cell_at g i j)))
                (seq 0 (nd_cols g))) (seq 0 (nd_rows g)))) as [Hall|Hbad].
  - exfalso. apply Hno. intros i j Him Hi Hj.
    rewrite Forall_forall in Hall.
    assert (i ∈ seq 0 (nd_rows g)) as Hin by (apply elem_of_seq; lia).
    specialize (Hall i Hin). rewrite Forall_forall in Hall.
    assert (j ∈ seq 0 (nd_cols g)) as Hjn by (apply elem_of_seq; lia).
    destruct (Hall j Hjn Him) as [s Hs].
    destruct (cell_at g i j) as [[s'|]|]; simpl in Hs; try discriminate.
    by exists s'.
  - apply not_Forall_Exists in Hbad; [|apply _].
    apply Exists_exists in Hbad as (i & Hi & Hbad). simpl in Hbad.
    apply not_Forall_Exists in Hbad; [|apply _].
    apply Exists_exists in Hbad as (j & Hj & Hbad). simpl in Hbad.
    apply elem_of_seq in Hi. apply elem_of_seq in Hj.
    exists i, j.
    destruct (decide (Z.of_nat i <= m)) as [Him|Him]; [|exfalso; apply Hbad; lia].
    split; [done|]. split; [lia|]. split; [lia|].
    rewrite <- (column_lookup g i j) by (done || lia).
    pose proof (column_lookup g i j Hok) as Hcol.
    destruct (lookup_lt_is_Some_2 (map (fun row => row !!! j) (nd_data g)) i)
      as [x Hx].
    { rewrite length_map. destruct Hok as [-> _]. lia. }
    rewrite Hx. f_equal. destruct x as [s|]; [|done].
    exfalso. apply Hbad. intros _. rewrite <- Hcol by lia. rewrite Hx. by eexists.
Qed.

(** ** The shape of the result and the presence of labels *)

Lemma max_header_prefix_row_nonneg (H : list Z) :
  0 <= max_header_prefix_row H ↔ H ≠ [].
Proof.
  unfold max_header_prefix_row, range.
  destruct (prefix_scan_range H 0 (length H) (-1)) as [[-> Hlen]|Hr].
  - destruct H; [|discriminate]. split; [lia|done].
  - split; [|lia]. intros _ ->. simpl in Hr. lia.
Qed.

Lemma header_rows_nonempty (table : Table) :
  header_rows table ≠ []
  ↔ ∃ cell, cell ∈ cells table ∧ is_header cell = true ∧ rows cell ≠ [].
Proof.
  split.
  - intros Hne. destruct (header_rows table) as [|r H] eqn:HH; [done|].
    assert (r ∈ header_rows table) as Hr by (rewrite HH; by left).
    apply elem_of_header_rows in Hr as (cell & Hc & Hh & Hr).
    exists cell. split; [done|]. split; [done|]. intros Hnil.
    rewrite Hnil in Hr. by apply elem_of_nil in Hr.
  - intros (cell & Hc & Hh & Hne) HH.
    destruct (rows cell) as [|r rs] eqn:Hrs; [done|].
    assert (r ∈ header_rows table) as Hr.
    { apply elem_of_header_rows. exists cell. rewrite Hrs.
      split; [done|]. split; [done|]. by left. }
    rewrite HH in Hr. by apply elem_of_nil in Hr.
Qed.

(** ** The grid of a table with header cells, slot by slot *)

Lemma last_write_all (ws : list write) (r c : Z) (v : string) :
  (∀ x : write, x ∈ ws → x.1 = (r, c) → x.2 = v) →
  (∃ x : write, x ∈ ws ∧ x.1 = (r, c)) →
  last_write ws r c = Some v.
Proof.
  intros Hall (x & Hx & Hpos).
  destruct (last_write ws r c) as [v'|] eqn:Hl.
  - apply last_write_Some in Hl. f_equal. by apply (Hall (r, c, v')).
  - rewrite last_write_None in Hl. destruct x as [[r' c'] v'].
    simpl in Hpos. injection Hpos as -> ->. by apply Hl in Hx.
Qed.

(** A cell on the header branch, with no row index repeated, shows its
    content all along its first row and blanks below. *)
Lemma last_write_header_cell (m : Z) (cell : Cell) (r c : Z) :
  in_header_prefix m cell = true →
  NoDup (rows cell) →
  covers cell r c →
  last_write (cell_writes m cell) r c
  = Some (if decide (head (rows cell) = Some r) then content cell else "").
Proof.
  intros Hpre Hnd [Hr Hc]. unfold cell_writes, header_writes. rewrite Hpre.
  destruct (rows cell) as [|r0 rs]; [by apply elem_of_nil in Hr|].
  apply NoDup_cons in Hnd as [Hr0 _]. simpl.
  apply last_write_all.
  - intros [[r' c'] v]. rewrite elem_of_app, elem_of_row_writes, elem_of_blanks.
    simpl. intros [(-> & _ & ->)|(Hr' & _ & ->)] [= -> ->].
    + by rewrite decide_True.
    + rewrite decide_False; [done|]. by intros [= ->].
  - apply elem_of_cons in Hr as [->|Hr].
    + exists (r0, c, content cell). split; [|done].
      apply elem_of_app. left. by apply elem_of_row_writes.
    + exists (r, c, ""). split; [|done].
      apply elem_of_app. right. by apply elem_of_blanks.
Qed.

Lemma last_write_shown (m : Z) (cs : list Cell) (r c : Z) :
  Forall (fun cell => cell_defined m cell = true) cs →
  Forall distinct_indices cs →
  match last_write (table_writes m cs) r c with
  | Some v => Some v
  | None => unset
  end = shown_slot m cs r c.
Proof.
  intros Hdef Hnd. rewrite last_write_table by done. unfold shown_slot.
  destruct (last (filter (fun cell => covers cell r c) cs)) as [cell|] eqn:Hl;
    [|done].
  simpl. apply last_Some in Hl as [l' Hl].
  assert (cell ∈ filter (fun cell => covers cell r c) cs) as Hin
    by (rewrite Hl; apply elem_of_app; right; by left).
  apply list_elem_of_filter in Hin as [Hcov Hin].
  rewrite Forall_forall in Hdef, Hnd. unfold shown_value.
  destruct (in_header_prefix m cell) eqn:Hpre.
  - rewrite last_write_header_cell; try done. by apply Hnd.
  - rewrite last_write_data_cell; auto.
Qed.

(** ** One cell at a time *)

Lemma last_write_cell_uncovered (m : Z) (cell : Cell) (r c : Z) :
  ¬ covers cell r c → last_write (cell_writes m cell) r c = None.
Proof.
  intros Hno. apply last_write_None. intros v Hin.
  by apply cell_writes_in_span in Hin.
Qed.

Lemma last_write_cell_covered (m : Z) (cell : Cell) (r c : Z) :
  cell_defined m cell = true → covers cell r c →
  ∃ v, last_write (cell_writes m cell) r c = Some v.
Proof.
  intros Hdef Hcov.
  destruct (last_write (cell_writes m cell) r c) as [v|] eqn:Hl; [by exists v|].
  exfalso. destruct (cell_writes_cover m cell r c Hdef Hcov) as [v Hv].
  rewrite last_write_None in Hl. by apply (Hl v).
Qed.

(** ** Labels *)

Lemma keep_first_sublist {A : Type} `{EqDecision A} (l : list A) :
  keep_first l `sublist_of` l.
Proof.
  induction l as [|x l IH]; simpl; [constructor|].
  apply sublist_skip. etransitivity; [apply sublist_filter|exact IH].
Qed.

Lemma sublist_map_Some (l k : list string) :
  l `sublist_of` k → map Some l `sublist_of` map Some k.
Proof.
  induction 1; simpl; [constructor|by apply sublist_skip|by apply sublist_cons].
Qed.

(** ** The loop over the elements, continued *)

Lemma traverse_app {A B : Type} (f : A -> result B) (xs ys : list A) :
  traverse f (xs ++ ys)
  = rx ← traverse f xs; ry ← traverse f ys; Ok (rx ++ ry).
Proof.
  induction xs as [|x xs IH]; simpl.
  - by destruct (traverse f ys).
  - destruct (f x) as [y|e]; simpl; [|done]. rewrite IH.
    destruct (traverse f xs) as [rx|e]; simpl; [|done].
    by destruct (traverse f ys).
Qed.

Lemma traverse_Raise_inv {A B : Type} (f : A -> result B) (xs : list A) e :
  traverse f xs = Raise e →
  ∃ xs1 x xs2, xs = xs1 ++ x :: xs2 ∧
    Forall (fun x => ∃ y, f x = Ok y) xs1 ∧ f x = Raise e.
Proof.
  induction xs as [|x xs IH]; simpl; [discriminate|].
  destruct (f x) as [y|e'] eqn:Hx; simpl.
  - destruct (traverse f xs) as [ys|e'']; simpl; [discriminate|].
    intros [= ->]. destruct (IH eq_refl) as (xs1 & x' & xs2 & -> & Hall & Hx').
    exists (x :: xs1), x', xs2. split; [done|]. split; [|done].
    constructor; [by exists y|done].
  - intros [= ->]. exists [], x, xs. split; [done|]. by split.
Qed.

Lemma pair_of_Raise_inv (e : Element) (err : exn) :
  pair_of e = Raise err →
  ∃ table, is_table_element e table ∧ table_to_dataframe table = Raise err.
Proof.
  unfold pair_of, is_table_element.
  destruct (elem_table e) as [table|]; [|discriminate].
  destruct (String.eqb_spec (elem_type e) "table") as [Hty|Hty]; [|discriminate].
  destruct (table_to_dataframe table) as [df|err'] eqn:Hdf; simpl;
    [discriminate|].
  intros [= ->]. by exists table.
Qed.

Lemma pair_of_Ok_inv (e : Element) (p : Element * option DataFrame) (table : Table) :
  pair_of e = Ok p → is_table_element e table →
  ∃ df, table_to_dataframe table = Ok df.
Proof.
  unfold pair_of. intros Hp [Hty Ht]. rewrite Ht, Hty in Hp. simpl in Hp.
  destruct (table_to_dataframe table) as [df|]; [by exists df|discriminate].
Qed.

(** ** The request to the partitioning service, run on a toy service *)

Example options_dict_example :
  options_dict (H := toy_services) (Some 0) true false true (Some [1; 2])
  = [("use_ocr", @VBool toy_services true);
     ("extract_images", @VBool toy_services true);
     ("selected_pages", @VPages toy_services [1; 2])].
Proof. reflexivity. Qed.

Example partition_file_good_key :
  partition_file (H := toy_services) toy_dumps toy_post empty_world "pdf"
    (Some "good") None None true false false None APS_URL
  = (@mkWorld toy_services [(DEBUG, "use_ocr")]
       [@mkRequest toy_services APS_URL "use_ocr" "pdf" "Bearer good"],
     inr "elements").
Proof. reflexivity. Qed.

Example partition_file_bad_key :
  partition_file (H := toy_services) toy_dumps toy_post empty_world "pdf"
    None (Some (Some "bad")) None false false false None APS_URL
  = (@mkWorld toy_services [(DEBUG, "")]
       [@mkRequest toy_services APS_URL "" "pdf" "Bearer bad"],
     inl (@HTTPError toy_services "Error: status_code: 500, reason: denied"
            (@mkResponse toy_services 500 "denied" (inr "error")))).
Proof. reflexivity. Qed.

Example partition_file_no_key :
  partition_file (H := toy_services) toy_dumps toy_post empty_world "pdf"
    None None None false false false None APS_URL
  = (@mkWorld toy_services [(DEBUG, "")] [], inl (@AttributeError toy_services)).
Proof. reflexivity. Qed.

(** * Further properties *)

(** X1. For a shape numpy can size (dimensions fitting a signed 64-bit
    word, fewer than [2^60] slots), the reconstruction of a table raises a
    ValueError exactly when [num_rows] or [num_cols] is negative:
    [np.empty] refuses the shape before any cell is looked at, and the
    shape check of the DataFrame constructor never fails. *)
Theorem X1_value_error_iff_negative_dimension (table : Table) :
  shape_fits table →
  (table_to_dataframe table = Raise ValueError
   ↔ num_rows table < 0 ∨ num_cols table < 0) ∧
  (num_rows table < 0 ∨ num_cols table < 0 →
   assemble_grid table (header_prefix table) = Raise ValueError).
Proof.
  intros _. split.
  - destruct (table_to_dataframe_outcome table)
      as [[Hneg ->]|[(Hh & Hw & _ & ->)|(Hh & Hw & _ & g & _ & Hres)]].
    + done.
    + split; [discriminate|lia].
    + split; [|lia].
      destruct Hres as [(_ & labels & _ & ->)|[_ ->]]; discriminate.
  - intros Hneg. unfold assemble_grid, np_empty.
    destruct (Z.ltb_spec (num_rows table) 0), (Z.ltb_spec (num_cols table) 0);
      simpl; (reflexivity || lia).
Qed.

Lemma X1_value_error_iff_negative_dimension_witness :
  table_to_dataframe negative_rows_table = Raise ValueError ∧
  table_to_dataframe one_cell_table ≠ Raise ValueError.
Proof.
  split.
  - apply (X1_value_error_iff_negative_dimension negative_rows_table).
    + unfold shape_fits, int64. simpl. lia.
    + left. simpl. lia.
  - intros Herr.
    apply (X1_value_error_iff_negative_dimension one_cell_table) in Herr.
    + simpl in Herr. lia.
    + unfold shape_fits, int64. simpl. lia.
Defined.

(** X2. For a shape numpy can size and indices fitting a signed 64-bit
    word, the reconstruction of a table raises an IndexError exactly when
    the dimensions are non-negative and some cell has an empty [rows], or
    an empty [cols] outside the header branch, or a column index outside
    [[-num_cols, num_cols)], or a row index outside [[-num_rows, num_rows)]
    together with a non-empty [cols]. *)
Theorem X2_index_error_iff_rejected_cell (table : Table) :
  shape_fits table → indices_fit table →
  table_to_dataframe table = Raise IndexError
  ↔ 0 <= num_rows table ∧ 0 <= num_cols table ∧
    ∃ cell, cell ∈ cells table ∧ cell_rejected table cell.
Proof.
  intros _ _.
  destruct (table_to_dataframe_outcome table)
    as [[Hneg ->]|[(Hh & Hw & Hex & ->)|(Hh & Hw & Hall & g & _ & Hres)]].
  - split; [discriminate|lia].
  - done.
  - split.
    + destruct Hres as [(_ & labels & _ & ->)|[_ ->]]; discriminate.
    + intros (_ & _ & cell & Hc & Hrej). by destruct (Hall cell Hc).
Qed.

Lemma X2_index_error_iff_rejected_cell_witness :
  table_to_dataframe row_five_table = Raise IndexError ∧
  ¬ ∃ cell, cell ∈ cells from_end_table ∧ cell_rejected from_end_table cell.
Proof.
  split.
  - apply (X2_index_error_iff_rejected_cell row_five_table).
    + unfold shape_fits, int64. simpl. lia.
    + apply (bool_decide_unpack _). vm_compute. exact I.
    + split; [simpl; lia|]. split; [simpl; lia|].
      exists (dat [5] [0] "x"). split; [by left|].
      right. right. left. split; [discriminate|].
      exists 5. split; [by left|]. simpl. lia.
  - intros Hex.
    assert (table_to_dataframe from_end_table = Raise IndexError) as Herr.
    { apply (X2_index_error_iff_rejected_cell from_end_table).
      - unfold shape_fits, int64. simpl. lia.
      - apply (bool_decide_unpack _). vm_compute. exact I.
      - split; [simpl; lia|]. split; [simpl; lia|]. exact Hex. }
    vm_compute in Herr. discriminate.
Defined.

(** X3. The reconstruction of a table raises a TypeError exactly when the
    grid has been assembled and one of its rows
    [0..max_header_prefix_row] still holds the unset marker. *)
Theorem X3_type_error_iff_unset_header_slot (table : Table) :
  table_to_dataframe table = Raise TypeError
  ↔ ∃ grid (i j : nat),
      assemble_grid table (header_prefix table) = Ok grid ∧
      Z.of_nat i <= header_prefix table ∧
      (i < nd_rows grid)%nat ∧ (j < nd_cols grid)%nat ∧
      cell_at grid i j = Some unset.
Proof.
  destruct (table_to_dataframe_outcome table)
    as [[Hneg Hres]|[(Hh & Hw & Hex & Hres)|(Hh & Hw & Hall & g & Hasm & Hres)]].
  - rewrite Hres. split; [discriminate|].
    intros (grid & i & j & Hasm & _).
    apply assemble_grid_shape in Hasm. lia.
  - rewrite Hres. split; [discriminate|].
    intros (grid & i & j & Hasm & _). exfalso.
    destruct (table_to_dataframe_cases table grid Hasm)
      as [(_ & labels & _ & _ & Hdf)|[_ Hdf]]; rewrite Hdf in Hres;
      discriminate.
  - pose proof (assemble_grid_shape _ _ _ Hasm) as (Hok & _).
    destruct Hres as [(Hset & labels & _ & ->)|[Hno ->]].
    + split; [discriminate|].
      intros (grid & i & j & Hasm' & Him & Hi & Hj & Hu).
      rewrite Hasm in Hasm'. injection Hasm' as <-.
      destruct (Hset i j Him Hi Hj) as [s Hs]. unfold unset in Hu. congruence.
    + split; [|done]. intros _.
      destruct (not_header_set_unset g _ Hok Hno) as (i & j & H).
      by exists g, i, j.
Qed.

(** X4. A DataFrame that is returned is rectangular: its values have
    [num_cols] columns and [max(0, num_rows - (max_header_prefix_row + 1))]
    rows, every row of that width; its labels, when present, are
    [num_cols] many, and they are absent exactly when
    [max_header_prefix_row] is [-1]. *)
Theorem X4_dataframe_shape (table : Table) (df : DataFrame) :
  table_to_dataframe table = Ok df →
  shape_ok (df_values df) ∧
  nd_cols (df_values df) = Z.to_nat (num_cols table) ∧
  Z.of_nat (nd_rows (df_values df))
  = Z.max 0 (num_rows table - (header_prefix table + 1)) ∧
  (∀ labels, df_columns df = Some labels →
     length labels = Z.to_nat (num_cols table)) ∧
  (df_columns df = None ↔ header_prefix table = -1).
Proof.
  intros Hdf.
  pose proof (max_header_prefix_row_range (header_rows table)) as [Hm _].
  fold (header_prefix table) in Hm.
  destruct (table_to_dataframe_outcome table)
    as [[_ Hres]|[(_ & _ & _ & Hres)|(Hh & Hw & _ & g & Hasm & Hres)]];
    try (rewrite Hres in Hdf; discriminate).
  destruct Hres as [(_ & labels & Hlen & Hres)|[_ Hres]];
    rewrite Hres in Hdf; [|discriminate].
  injection Hdf as <-. simpl.
  pose proof (assemble_grid_shape _ _ _ Hasm) as (Hok & _ & _ & Hr & Hc).
  split; [by apply rows_from_shape_ok|]. split; [done|]. split.
  - unfold rows_from. simpl. rewrite slice_bound_nonneg by lia. lia.
  - split.
    + intros labels'. destruct (0 <=? header_prefix table); [|discriminate].
      intros [= <-]. congruence.
    + destruct (Z.leb_spec 0 (header_prefix table)); split;
        (discriminate || lia || done).
Qed.

Lemma X4_dataframe_shape_witness :
  shape_ok (mkArray 1 2 [[Some "Alice"; Some "30"]]) ∧
  2%nat = Z.to_nat (num_cols contiguity_table) ∧
  Z.of_nat 1
  = Z.max 0 (num_rows contiguity_table - (header_prefix contiguity_table + 1)) ∧
  (∀ labels, Some ["Name"; "Name"] = Some labels →
     length labels = Z.to_nat (num_cols contiguity_table)) ∧
  (Some ["Name"; "Name"] = None ↔ header_prefix contiguity_table = -1).
Proof.
  apply (X4_dataframe_shape contiguity_table
           (mkDataFrame (Some ["Name"; "Name"])
              (mkArray 1 2 [[Some "Alice"; Some "30"]]))).
  vm_compute. reflexivity.
Defined.

(** X5. There is a header region, and a returned DataFrame has column
    labels, exactly when some header-flagged cell has a non-empty [rows],
    wherever that cell lies. *)
Theorem X5_labels_iff_header_cell (table : Table) :
  (0 <= header_prefix table
   ↔ ∃ cell, cell ∈ cells table ∧ is_header cell = true ∧ rows cell ≠ []) ∧
  (∀ df, table_to_dataframe table = Ok df →
     (is_Some (df_columns df)
      ↔ ∃ cell, cell ∈ cells table ∧ is_header cell = true ∧ rows cell ≠ [])).
Proof.
  assert (0 <= header_prefix table
          ↔ ∃ cell, cell ∈ cells table ∧ is_header cell = true ∧ rows cell ≠ [])
    as Hiff.
  { unfold header_prefix.
    by rewrite max_header_prefix_row_nonneg, header_rows_nonempty. }
  split; [exact Hiff|]. intros df Hdf. rewrite <- Hiff.
  destruct (table_to_dataframe_outcome table)
    as [[_ Hres]|[(_ & _ & _ & Hres)|(_ & _ & _ & g & _ & Hres)]];
    try (rewrite Hres in Hdf; discriminate).
  destruct Hres as [(_ & labels & _ & Hres)|[_ Hres]];
    rewrite Hres in Hdf; [|discriminate].
  injection Hdf as <-. simpl.
  destruct (Z.leb_spec 0 (header_prefix table)); split;
    try done; try lia; by intros [? ?].
Qed.

(** X6. When some header-flagged cell has a row but no header-flagged cell
    touches row 0, the header prefix is [0]: row 0 alone is taken as the
    header region, and the loop body treats a cell that starts below row 0,
    header-flagged or not, by its [else] branch (lines 167-172): the
    content at [(rows[0], cols[0])], blanks along the rest of the first row
    and over the rows below, and an IndexError when [cols] is empty. *)
Theorem X6_header_below_row_zero (table : Table) :
  (∃ cell, cell ∈ cells table ∧ is_header cell = true ∧ rows cell ≠ []) →
  (∀ cell, cell ∈ cells table → is_header cell = true → 0 ∉ rows cell) →
  header_prefix table = 0 ∧
  ∀ cell r0 rs grid, rows cell = r0 :: rs → 0 < r0 →
    fill_cell (header_prefix table) grid cell
    = (c0 ← getitem0 (cols cell);
       grid ← setitem grid r0 c0 (content cell);
       grid ← for_each (slice1 (cols cell))
                (fun grid col => setitem grid r0 col "") grid;
       for_each rs (fun grid row =>
         for_each (cols cell) (fun grid col => setitem grid row col "") grid)
         grid) ∧
    fill_cell (header_prefix table) grid cell
    = fill_cell (header_prefix table) grid (as_data cell) ∧
    (cols cell = [] →
     fill_cell (header_prefix table) grid cell = Raise IndexError).
Proof.
  intros Hex Hno.
  assert (header_prefix table = 0) as Hm.
  { unfold header_prefix. apply (max_header_prefix_row_break _ 0).
    - apply header_rows_nonempty in Hex.
      destruct (header_rows table); [done|simpl; lia].
    - intros H0. apply list_elem_of_lookup_2 in H0.
      apply elem_of_header_rows in H0 as (cell & Hc & Hh & Hr).
      by apply (Hno cell).
    - intros j Hj. lia. }
  split; [exact Hm|]. intros cell r0 rs grid Hr Hpos. rewrite Hm.
  destruct cell as [rws cs v h]. simpl in Hr. subst rws.
  unfold fill_cell, as_data. cbn [rows cols content is_header].
  change (slice1 (r0 :: rs)) with rs.
  assert ((if h then r ← getitem0 (r0 :: rs); Ok (r <=? 0) else Ok false)
          = Ok false) as ->.
  { destruct h; [|done]. simpl. destruct (Z.leb_spec r0 0); [lia|done]. }
  split; [reflexivity|]. split; [reflexivity|]. by intros ->.
Qed.

Lemma X6_header_below_row_zero_witness :
  header_prefix late_header_table = 0 ∧
  fill_cell (header_prefix late_header_table) (blank 2 1) (hdr [1] [0] "h")
  = Ok (mkArray 2 1 [[None]; [Some "h"]]) ∧
  fill_cell (header_prefix late_header_table) (blank 2 1) late_header_no_cols
  = Raise IndexError.
Proof.
  destruct (X6_header_below_row_zero late_header_table) as [Hm Hfill].
  - exists (hdr [1] [0] "h"). split; [right; by left|]. by split.
  - intros cell Hc Hh H0. simpl in Hc.
    apply elem_of_cons in Hc as [->|Hc]; [discriminate|].
    apply elem_of_cons in Hc as [->|Hc]; [|by apply elem_of_nil in Hc].
    simpl in H0. apply elem_of_cons in H0 as [?|H0]; [lia|].
    by apply elem_of_nil in H0.
  - split; [exact Hm|]. split.
    + destruct (Hfill (hdr [1] [0] "h") 1 [] (blank 2 1)) as (-> & _);
        [reflexivity|lia|]. vm_compute. reflexivity.
    + destruct (Hfill late_header_no_cols 1 [] (blank 2 1)) as (_ & _ & Hno');
        [reflexivity|lia|]. by apply Hno'.
Defined.

(** X7. The grid of a table with non-empty in-bounds spans and no index
    repeated within a cell has [num_rows] rows of [num_cols] slots, and
    each slot is decided by the last cell whose span contains it: a header
    cell of the header prefix shows its content in every column of its
    first row and blanks below, any other cell its content at its top-left
    position and blanks elsewhere; a slot outside every span stays
    unset. *)
Theorem X7_grid_slot_by_slot (table : Table) :
  in_bounds table →
  Forall distinct_indices (cells table) →
  ∃ grid,
    assemble_grid table (header_prefix table) = Ok grid ∧
    nd_rows grid = Z.to_nat (num_rows table) ∧
    nd_cols grid = Z.to_nat (num_cols table) ∧
    shape_ok grid ∧
    (∀ i j : nat, (i < nd_rows grid)%nat → (j < nd_cols grid)%nat →
       cell_at grid i j
       = Some (shown_slot (header_prefix table) (cells table)
                 (Z.of_nat i) (Z.of_nat j))) ∧
    (∀ r c, 0 <= r < num_rows table → 0 <= c < num_cols table →
       cell_at grid (Z.to_nat r) (Z.to_nat c)
       = Some (shown_slot (header_prefix table) (cells table) r c)).
Proof.
  intros Hb Hnd.
  destruct (assemble_grid_slots table (header_prefix table) Hb)
    as (grid & Hasm & Hr & Hc & _ & Hslot).
  pose proof (assemble_grid_shape _ _ _ Hasm) as (Hok & _).
  assert (∀ i j : nat, (i < nd_rows grid)%nat → (j < nd_cols grid)%nat →
            cell_at grid i j
            = Some (shown_slot (header_prefix table) (cells table)
                      (Z.of_nat i) (Z.of_nat j))) as Hshown.
  { intros i j Hi Hj.
    rewrite (Hslot i j Hi Hj). f_equal. apply last_write_shown; [|done].
    destruct Hb as (_ & _ & Hall). eapply Forall_impl; [exact Hall|].
    intros cell. apply cell_in_bounds_defined. }
  exists grid. split; [done|]. split; [done|]. split; [done|].
  split; [done|]. split; [done|].
  intros r c Hrr Hcc. rewrite Hshown; [|lia|lia].
  by rewrite !Z2Nat.id by lia.
Qed.

Lemma X7_grid_slot_by_slot_witness :
  assemble_grid contiguity_table (header_prefix contiguity_table)
  = Ok (mkArray 3 2
          [[Some "Name"; Some "Name"]; [Some ""; Some ""];
           [Some "Alice"; Some "30"]]) ∧
  ∃ grid,
    assemble_grid contiguity_table (header_prefix contiguity_table) = Ok grid ∧
    nd_rows grid = Z.to_nat (num_rows contiguity_table) ∧
    nd_cols grid = Z.to_nat (num_cols contiguity_table) ∧
    shape_ok grid ∧
    (∀ i j : nat, (i < nd_rows grid)%nat → (j < nd_cols grid)%nat →
       cell_at grid i j
       = Some (shown_slot (header_prefix contiguity_table)
                 (cells contiguity_table) (Z.of_nat i) (Z.of_nat j))) ∧
    (∀ r c, 0 <= r < num_rows contiguity_table →
       0 <= c < num_cols contiguity_table →
       cell_at grid (Z.to_nat r) (Z.to_nat c)
       = Some (shown_slot (header_prefix contiguity_table)
                 (cells contiguity_table) r c)).
Proof.
  split; [vm_compute; reflexivity|].
  apply (X7_grid_slot_by_slot contiguity_table).
  - solve_in_bounds.
  - apply (bool_decide_unpack _). vm_compute. exact I.
Defined.

(** X8. One iteration of the loop over the cells, for a cell with non-empty
    spans inside the array: it raises nothing, keeps the shape, leaves a
    string in every slot of the span of the cell, and changes no slot
    outside that span. *)
Theorem X8_cell_writes_its_span_only (m : Z) (grid : ndarray) (cell : Cell) :
  shape_ok grid →
  cell_in_bounds (Z.of_nat (nd_rows grid)) (Z.of_nat (nd_cols grid)) cell →
  ∃ grid',
    fill_cell m grid cell = Ok grid' ∧
    nd_rows grid' = nd_rows grid ∧ nd_cols grid' = nd_cols grid ∧
    shape_ok grid' ∧
    ∀ i j : nat, (i < nd_rows grid)%nat → (j < nd_cols grid)%nat →
      (covers cell (Z.of_nat i) (Z.of_nat j) →
         ∃ s, cell_at grid' i j = Some (Some s)) ∧
      (¬ covers cell (Z.of_nat i) (Z.of_nat j) →
         cell_at grid' i j = cell_at grid i j).
Proof.
  intros [Hlen Hrows] Hb.
  pose proof (cell_in_bounds_defined _ _ m cell Hb) as Hdef.
  pose proof (cell_in_bounds_writes _ _ m cell Hb) as Hws.
  rewrite fill_cell_writes, Hdef, for_each_write_nonneg by done.
  eexists. split; [reflexivity|]. simpl. split; [done|]. split; [done|].
  split.
  { split; simpl; [by rewrite replay_rows|by apply replay_cols]. }
  intros i j Hi Hj. unfold cell_at. simpl.
  rewrite (slot_replay _ _ i j (nd_cols grid)); try done; try lia.
  - split.
    + intros Hcov.
      destruct (last_write_cell_covered m cell _ _ Hdef Hcov) as [v ->].
      by exists v.
    + intros Hno. by rewrite last_write_cell_uncovered.
  - eapply Forall_impl; [exact Hws|]. intros x Hx. simpl in Hx. lia.
Qed.

Lemma X8_cell_writes_its_span_only_witness :
  ∃ grid',
    fill_cell 0 (blank 2 2) (hdr [0] [0; 1] "h") = Ok grid' ∧
    nd_rows grid' = nd_rows (blank 2 2) ∧ nd_cols grid' = nd_cols (blank 2 2) ∧
    shape_ok grid' ∧
    ∀ i j : nat, (i < nd_rows (blank 2 2))%nat → (j < nd_cols (blank 2 2))%nat →
      (covers (hdr [0] [0; 1] "h") (Z.of_nat i) (Z.of_nat j) →
         ∃ s, cell_at grid' i j = Some (Some s)) ∧
      (¬ covers (hdr [0] [0; 1] "h") (Z.of_nat i) (Z.of_nat j) →
         cell_at grid' i j = cell_at (blank 2 2) i j).
Proof.
  apply (X8_cell_writes_its_span_only 0 (blank 2 2) (hdr [0] [0; 1] "h")).
  - apply blank_shape_ok.
  - unfold cell_in_bounds, in_range. simpl.
    repeat split; try discriminate; repeat constructor; lia.
Defined.

(** X9. The label of one header column (line 177): a column with an unset
    slot makes the join raise a TypeError; a column of strings gives the
    join, by [" | "], of a list without repetitions that holds exactly the
    non-empty strings of the column, in the order of the column. *)
Theorem X9_column_label (npcol : list obj) :
  (None ∈ npcol → column_label npcol = Raise TypeError) ∧
  (None ∉ npcol →
     ∃ l, column_label npcol = Ok (String.concat " | " l) ∧
          NoDup l ∧
          (∀ s, s ∈ l ↔ s ≠ "" ∧ Some s ∈ npcol) ∧
          map Some l `sublist_of` npcol).
Proof.
  split; [apply column_label_unset|]. intros Hno.
  destruct (column_label_cases npcol) as [(ss & -> & ->)|[Hin _]]; [|done].
  exists (keep_first (filter (fun s => s ≠ "") ss)).
  split; [reflexivity|]. split; [apply NoDup_keep_first|]. split.
  - intros s. rewrite elem_of_keep_first, list_elem_of_filter.
    rewrite (list_elem_of_In (map Some ss)), in_map_iff.
    split.
    + intros [Hne Hs]. split; [done|]. exists s. by rewrite <- list_elem_of_In.
    + intros [Hne (s' & [= ->] & Hs)]. by rewrite list_elem_of_In.
  - apply sublist_map_Some. etransitivity; [apply keep_first_sublist|].
    apply sublist_filter.
Qed.

Lemma X9_column_label_witness :
  ∃ l, column_label [Some "2023"; Some ""; Some "Q1"; Some "2023"]
       = Ok (String.concat " | " l) ∧
       NoDup l ∧
       (∀ s, s ∈ l
             ↔ s ≠ "" ∧ Some s ∈ [Some "2023"; Some ""; Some "Q1"; Some "2023"]) ∧
       map Some l `sublist_of` [Some "2023"; Some ""; Some "Q1"; Some "2023"].
Proof.
  destruct (X9_column_label [Some "2023"; Some ""; Some "Q1"; Some "2023"])
    as [_ Hstrings].
  apply Hstrings. apply (bool_decide_unpack _). vm_compute. exact I.
Defined.

(** X10. The result for a response made of two parts is the result for the
    first part followed by the result for the second, and raises what the
    first of them to fail raises. *)
Theorem X10_tables_to_pandas_app (before after : list Element) :
  tables_to_pandas (before ++ after)
  = r1 ← tables_to_pandas before;
    r2 ← tables_to_pandas after;
    Ok (r1 ++ r2).
Proof. rewrite !tables_to_pandas_traverse. apply traverse_app. Qed.

(** X11. [tables_to_pandas] raises an exception exactly when the
    reconstruction of some table element raises it and every table element
    before that one is reconstructed; elements that are not tables never
    make it raise. *)
Theorem X11_raises_iff_a_table_raises (elements : list Element) (err : exn) :
  tables_to_pandas elements = Raise err
  ↔ ∃ before e after table,
      elements = before ++ e :: after ∧
      is_table_element e table ∧
      table_to_dataframe table = Raise err ∧
      ∀ e' table', e' ∈ before → is_table_element e' table' →
        ∃ df, table_to_dataframe table' = Ok df.
Proof.
  rewrite tables_to_pandas_traverse. split.
  - intros (before & e & after & -> & Hall & He)%traverse_Raise_inv.
    apply pair_of_Raise_inv in He as (table & Ht & Herr).
    exists before, e, after, table.
    split; [done|]. split; [done|]. split; [done|].
    intros e' table' He' Ht'. rewrite Forall_forall in Hall.
    destruct (Hall e' He') as [p Hp]. by eapply pair_of_Ok_inv.
  - intros (before & e & after & table & -> & Ht & Herr & Hbefore).
    apply traverse_Raise; [|by eapply pair_of_Raise].
    apply Forall_forall. intros e' He'. apply pair_of_Ok.
    intros table' Ht'. by apply (Hbefore e').
Qed.

(** ** The request to the partitioning service *)

Section request.
Context `{Services}.
Variable json_dumps : pydict option_value -> string.
Variable requests_post : Request -> extern + Response.

(** X12. [_json_options] hands [json.dumps] a dict in which an argument
    appears exactly when it is truthy: a threshold that is not [None] and
    not zero, a flag that is [True] (stored as [True]), a page list that is
    neither [None] nor empty; no other key is ever present. *)
Theorem X12_options_present_iff_truthy
    (threshold : option float) (use_ocr extract_table_structure
    extract_images : bool) (selected_pages : option (list Z)) :
  let d := options_dict threshold use_ocr extract_table_structure
             extract_images selected_pages in
  _json_options json_dumps threshold use_ocr extract_table_structure
    extract_images selected_pages = json_dumps d ∧
  dict_get d "threshold"
  = match threshold with
    | Some t => if float_bool t then Some (VFloat t) else None
    | None => None
    end ∧
  dict_get d "use_ocr" = (if use_ocr then Some (VBool true) else None) ∧
  dict_get d "extract_images"
  = (if extract_images then Some (VBool true) else None) ∧
  dict_get d "extract_table_structure"
  = (if extract_table_structure then Some (VBool true) else None) ∧
  dict_get d "selected_pages"
  = match selected_pages with
    | Some (p :: ps) => Some (VPages (p :: ps))
    | Some [] | None => None
    end ∧
  ∀ k, k ∉ option_keys → dict_get d k = None.
Proof.
  intros d. split; [reflexivity|]. subst d. unfold options_dict.
  assert (∀ k, k ∉ option_keys →
            String.eqb k "threshold" = false ∧ String.eqb k "use_ocr" = false ∧
            String.eqb k "extract_images" = false ∧
            String.eqb k "extract_table_structure" = false ∧
            String.eqb k "selected_pages" = false) as Hother.
  { intros k Hk. unfold option_keys in Hk.
    repeat split; apply String.eqb_neq; intros ->; apply Hk;
      repeat first [by left | right]. }
  destruct threshold as [t|]; [destruct (float_bool t)|];
    destruct use_ocr, extract_table_structure, extract_images;
    destruct selected_pages as [[|p ps]|];
    (repeat split; try reflexivity);
    intros k Hk; destruct (Hother k Hk) as (H1 & H2 & H3 & H4 & H5);
    simpl; rewrite ?H1, ?H2, ?H3, ?H4, ?H5; reflexivity.
Qed.

(** X13. The keys of the options dict are distinct and always come in the
    order threshold, use_ocr, extract_images, extract_table_structure,
    selected_pages; and the dict never holds a flag that is [False], an
    empty page list or a threshold that is zero. *)
Theorem X13_options_order_and_values
    (threshold : option float) (use_ocr extract_table_structure
    extract_images : bool) (selected_pages : option (list Z)) :
  let d := options_dict threshold use_ocr extract_table_structure
             extract_images selected_pages in
  map fst d `sublist_of` option_keys ∧
  NoDup (map fst d) ∧
  (∀ k b, (k, VBool b) ∈ d → b = true) ∧
  (∀ k l, (k, VPages l) ∈ d → l ≠ []) ∧
  (∀ k t, (k, VFloat t) ∈ d → float_bool t = true).
Proof.
  intros d.
  assert (NoDup option_keys) as Hnd
    by (apply (bool_decide_unpack _); vm_compute; exact I).
  assert (map fst d `sublist_of` option_keys) as Hsub.
  { subst d. unfold options_dict, option_keys.
    destruct threshold as [t|]; [destruct (float_bool t)|];
      destruct use_ocr, extract_table_structure, extract_images;
      destruct selected_pages as [[|p ps]|]; simpl;
      repeat first [apply sublist_nil | apply sublist_skip | apply sublist_cons]. }
  split; [exact Hsub|]. split; [by eapply sublist_NoDup|].
  subst d. unfold options_dict.
  destruct threshold as [t|]; [destruct (float_bool t) eqn:Ht|];
    destruct use_ocr, extract_table_structure, extract_images;
    destruct selected_pages as [[|p ps]|]; simpl;
    (split; [|split]); intros k x Hin;
    repeat (apply elem_of_cons in Hin as [Hin|Hin];
            [first [discriminate Hin | (injection Hin as ? ?; subst; done)]|]);
    by apply elem_of_nil in Hin.
Qed.

(** X14. [partition_file] posts at most once, and only with a key: when no
    key can be had (no key and no configuration, or a configuration whose
    [api_key()] raises) nothing is sent and that exception is what the
    caller gets; otherwise exactly one request goes out, to [aps_url], with
    the options string of [_json_options], the file, and the header
    ["Bearer " + key]. *)
Theorem X14_one_request_with_a_key
    (w : World) (file : BinaryIO) (aryn_api_key : option string)
    (aryn_config : option ArynConfig) (threshold : option float)
    (use_ocr extract_table_structure extract_images : bool)
    (selected_pages : option (list Z)) (aps_url : string) :
  let res := partition_file json_dumps requests_post w file aryn_api_key
               aryn_config threshold use_ocr extract_table_structure
               extract_images selected_pages aps_url in
  match resolved_key aryn_api_key aryn_config with
  | inl e => sent res.1 = sent w ∧ res.2 = inl e
  | inr key =>
      sent res.1
      = sent w ++
        [mkRequest aps_url
           (_json_options json_dumps threshold use_ocr extract_table_structure
              extract_images selected_pages)
           file ("Bearer " ++ key)]
  end.
Proof.
  unfold partition_file, resolved_key.
  destruct aryn_api_key as [k|], aryn_config as [config|]; simpl;
    try (destruct (api_key _) as [e|key]; simpl; [done|]);
    try done;
    by repeat (match goal with
               | |- context [match ?x with _ => _ end] => destruct x; simpl
               end).
Qed.

(** X15. [partition_file] returns a body exactly when a key was had, the
    service answered the request with status 200 and [resp.json()] gave
    that body; a response with any other status is never turned into a
    result. *)
Theorem X15_body_iff_status_200
    (w : World) (file : BinaryIO) (aryn_api_key : option string)
    (aryn_config : option ArynConfig) (threshold : option float)
    (use_ocr extract_table_structure extract_images : bool)
    (selected_pages : option (list Z)) (aps_url : string) (body : json) :
  (partition_file json_dumps requests_post w file aryn_api_key aryn_config
     threshold use_ocr extract_table_structure extract_images selected_pages
     aps_url).2 = inr body
  ↔ ∃ key resp,
      resolved_key aryn_api_key aryn_config = inr key ∧
      requests_post
        (mkRequest aps_url
           (_json_options json_dumps threshold use_ocr extract_table_structure
              extract_images selected_pages)
           file ("Bearer " ++ key)) = inr resp ∧
      status_code resp = 200 ∧
      resp_json resp = inr body.
Proof.
  unfold partition_file, resolved_key.
  set (opts := _json_options json_dumps threshold use_ocr
                 extract_table_structure extract_images selected_pages).
  assert (∀ (w' : World) (config : ArynConfig),
    (match api_key config with
     | inl e => (log_record w' DEBUG opts, inl (External e))
     | inr key =>
         match requests_post (mkRequest aps_url opts file ("Bearer " ++ key)) with
         | inl e =>
             (record_request (log_record w' DEBUG opts)
                (mkRequest aps_url opts file ("Bearer " ++ key)),
              inl (External e))
         | inr resp =>
             if negb (status_code resp =? 200)
             then (record_request (log_record w' DEBUG opts)
                     (mkRequest aps_url opts file ("Bearer " ++ key)),
                   inl (HTTPError
                          ("Error: status_code: " ++ int_str (status_code resp)
                             ++ ", reason: " ++ text resp) resp))
             else match resp_json resp with
                  | inl e =>
                      (record_request (log_record w' DEBUG opts)
                         (mkRequest aps_url opts file ("Bearer " ++ key)),
                       inl (External e))
                  | inr body' =>
                      (record_request (log_record w' DEBUG opts)
                         (mkRequest aps_url opts file ("Bearer " ++ key)),
                       inr body')
                  end
         end
     end).2 = inr body
    ↔ ∃ key resp,
        match api_key config with
        | inl e => inl (External e)
        | inr key => inr key
        end = inr key ∧
        requests_post (mkRequest aps_url opts file ("Bearer " ++ key)) = inr resp ∧
        status_code resp = 200 ∧ resp_json resp = inr body) as Hcore.
  { intros w' config. destruct (api_key config) as [e|key]; simpl.
    { split; [discriminate|]. by intros (? & ? & ? & _). }
    destruct (requests_post _) as [e|resp] eqn:Hpost; simpl.
    { split; [discriminate|]. intros (key' & resp' & [= <-] & Hp & _).
      rewrite Hpost in Hp. discriminate. }
    destruct (Z.eqb_spec (status_code resp) 200) as [Hs|Hs]; simpl.
    - destruct (resp_json resp) as [e|body'] eqn:Hj; simpl.
      + split; [discriminate|]. intros (key' & resp' & [= <-] & Hp & _ & Hb).
        rewrite Hpost in Hp. injection Hp as <-. congruence.
      + split.
        * intros [= ->]. by exists key, resp.
        * intros (key' & resp' & [= <-] & Hp & _ & Hb).
          rewrite Hpost in Hp. injection Hp as <-. congruence.
    - split; [discriminate|]. intros (key' & resp' & [= <-] & Hp & Hs' & _).
      rewrite Hpost in Hp. injection Hp as <-. done. }
  destruct aryn_api_key as [k|], aryn_config as [config|]; simpl.
  - apply Hcore.
  - apply Hcore.
  - apply Hcore.
  - split; [discriminate|]. by intros (? & ? & ? & _).
Qed.

(** X16. With an explicit key the configuration plays no part: whatever
    configuration is passed, or none, the same request is sent and the same
    result comes back; the only trace of the configuration is the warning,
    logged exactly when a configuration was passed as well. *)
Theorem X16_explicit_key_overrides_config
    (w : World) (file : BinaryIO) (k : string)
    (aryn_config aryn_config' : option ArynConfig) (threshold : option float)
    (use_ocr extract_table_structure extract_images : bool)
    (selected_pages : option (list Z)) (aps_url : string) :
  let run := fun config =>
    partition_file json_dumps requests_post w file (Some k) config
      threshold use_ocr extract_table_structure extract_images selected_pages
      aps_url in
  (run aryn_config).2 = (run aryn_config').2 ∧
  sent (run aryn_config).1 = sent (run aryn_config').1 ∧
  logged (run aryn_config).1
  = logged w
    ++ match aryn_config with
       | Some _ =>
           [(WARNING,
             "Both aryn_api_key and aryn_config were provided. Using aryn_api_key")]
       | None => []
       end
    ++ [(DEBUG, _json_options json_dumps threshold use_ocr
                  extract_table_structure extract_images selected_pages)].
Proof.
  unfold partition_file.
  destruct aryn_config as [c|], aryn_config' as [c'|]; simpl;
    destruct (api_key (ArynConfig_with_key k)) as [e|key]; simpl;
    try (destruct (requests_post _) as [e|resp]; simpl);
    try (destruct (negb (status_code resp =? 200)); simpl);
    try (destruct (resp_json resp); simpl);
    repeat split; try reflexivity; by rewrite <- ?app_assoc.
Qed.

End request.
